(** * The calling lobby view (ts/components/CallingLobby.tsx)

    A shallow embedding of the [CallingLobby] React component: the value it
    renders from its props and its one state cell, the closures it hands to
    the DOM, the two effects it registers, and a small model of the React
    life cycle (mount, events, re-render, unmount) that drives them. *)

From Stdlib Require Import String List Bool Arith ZArith Lia DecimalString.
From stdpp Require Import base option list strings.

Local Open Scope string_scope.
Local Open Scope list_scope.
Local Open Scope nat_scope.

(** ** JavaScript primitives used by the component *)

Module JS.

(** [a || b] on an optional string: [undefined] and the empty string are
    falsy. *)
Definition or (a : option string) (b : string) : string :=
  match a with
  | Some s => if decide (s = "") then b else s
  | None => b
  end.

(** [String(n)] for an integer [n]. *)
Definition String (n : Z) : string :=
  NilZero.string_of_int (Z.to_int n).

(** [a === b] where [a] may be [undefined] and [b] is a string. *)
Definition strict_eq (a : option string) (b : string) : bool :=
  match a with
  | Some s => bool_decide (s = b)
  | None => false
  end.

(** [Array.prototype.some]. *)
Definition some {A} (f : A -> bool) (l : list A) : bool := existsb f l.

End JS.

(** ** Imported types

    The type declarations live in other modules of the application; the
    fields below are the ones the component reads. *)

(** Identity of a function passed as a prop. Two props hold the same
    function exactly when they hold the same identity. *)
Definition Fn := nat.

(** [MediaDeviceInfo]: only the number of cameras is read. *)
Definition MediaDeviceInfo := string.

Definition ColorType := string.

(** [ConversationType], restricted to the fields read here. [uuid] and
    [firstName] are optional. *)
Record ConversationType := {
  uuid : option string;
  firstName : option string;
  title : string
}.

(** Second argument of the localizer: an array of strings or an object
    whose values are strings or [undefined]. *)
Inductive ReplacementValuesType :=
| ValuesArray (values : list string)
| ValuesObject (fields : list (string * option string)).

(** [LocalizerType]: [(key, values?) => string]. *)
Definition LocalizerType := string -> option ReplacementValuesType -> string.

Inductive CallingButtonType :=
| AUDIO_OFF | AUDIO_ON | VIDEO_DISABLED | VIDEO_OFF | VIDEO_ON.

Inductive TooltipPlacement := Top.

(** The object returned by [React.useRef(null)]. *)
Inductive RefObject := localVideoRef.

#[global] Instance CallingButtonType_eq_dec : EqDecision CallingButtonType.
Proof. solve_decision. Defined.
#[global] Instance RefObject_eq_dec : EqDecision RefObject.
Proof. solve_decision. Defined.

(** ** Props *)

Record ConversationTitle := { conv_title : string }.

Record MeType := {
  avatarPath : option string;
  color : option ColorType;
  me_uuid : string
}.

(** [isGroupCall] is declared [boolean] and [isCallFull] optional; both
    have a default in the parameter list, so both may arrive undefined. *)
Record PropsType := {
  availableCameras : list MediaDeviceInfo;
  conversation : ConversationTitle;
  hasLocalAudio : bool;
  hasLocalVideo : bool;
  i18n : LocalizerType;
  isGroupCall : option bool;
  isCallFull : option bool;
  me : MeType;
  onCallCanceled : Fn;
  onJoinCall : Fn;
  peekedParticipants : list ConversationType;
  setLocalAudio : Fn;
  setLocalVideo : Fn;
  setLocalPreview : Fn;
  showParticipantsList : bool;
  toggleParticipants : Fn;
  toggleSettings : Fn
}.

(** ** What the component can do to the outside

    Every call the component makes is recorded as an [Action]: a call of a
    callback prop (with the identity of the function called and its
    argument), a call of the state setter, a call on the document, or a
    call on the keyboard event being handled. *)

(** Closures created by the component, represented by the variables they
    capture. *)
Inductive Callback :=
| Prop_onCallCanceled (f : Fn)
| Closure_toggleAudio (hasLocalAudio : bool) (setLocalAudio : Fn)
| Closure_toggleVideo (hasLocalVideo : bool) (setLocalVideo : Fn)
| Closure_join (onJoinCall : Fn).

(** The [handleKeyDown] closure captures the two toggles. *)
Record KeyListener := {
  kl_toggleVideo : Callback;
  kl_toggleAudio : Callback
}.

Inductive Action :=
| SetLocalAudio (f : Fn) (enabled : bool)
| SetLocalVideo (f : Fn) (enabled : bool)
| SetLocalPreview (f : Fn) (element : option RefObject)
| OnCallCanceled (f : Fn)
| OnJoinCall (f : Fn)
| SetIsCallConnecting (value : bool)
| AddEventListener (type : string) (listener : KeyListener)
| RemoveEventListener (type : string) (listener : KeyListener)
| PreventDefault
| StopPropagation.

#[global] Instance Callback_eq_dec : EqDecision Callback.
Proof. solve_decision. Defined.
#[global] Instance KeyListener_eq_dec : EqDecision KeyListener.
Proof. solve_decision. Defined.
#[global] Instance Action_eq_dec : EqDecision Action.
Proof. solve_decision. Defined.

(** Code that returns a value and performs calls, in order. *)
Definition Eff (A : Type) : Type := (A * list Action)%type.

#[global] Instance Eff_ret : MRet Eff := fun A a => (a, []).
#[global] Instance Eff_bind : MBind Eff := fun A B k m =>
  let r := k m.1 in (r.1, m.2 ++ r.2).

Definition emit (a : Action) : Eff unit := (tt, [a]).

(** The calls performed by a computation. *)
Definition calls {A} (m : Eff A) : list Action := m.2.

(** ** Rendered output *)

Module React.

(** Children the component produces: [false] and [null] render nothing. *)
Inductive ReactNode :=
| RFalse
| RNull
| RText (s : string)
| RSpinner (svgSize : string).

Definition visible (n : ReactNode) : bool :=
  match n with
  | RFalse | RNull => false
  | RText _ | RSpinner _ => true
  end.

(** What React shows for a list of children. *)
Definition rendered (children : list ReactNode) : list ReactNode :=
  List.filter visible children.

(** An effect as passed to [React.useEffect]: what it does, the cleanup
    it returns, and its dependency list. *)
Record Effect (D : Type) := {
  deps : D;
  run : Eff unit;
  cleanup : Eff unit
}.
Arguments deps {D}.
Arguments run {D}.
Arguments cleanup {D}.

End React.
Import React.

#[global] Instance ReactNode_eq_dec : EqDecision ReactNode.
Proof. solve_decision. Defined.

Record CallingHeaderProps := {
  ch_title : string;
  ch_isGroupCall : bool;
  ch_participantCount : nat;
  ch_showParticipantsList : bool;
  ch_toggleParticipants : Fn;
  ch_toggleSettings : Fn
}.

Inductive VideoArea :=
| Video (ref : RefObject)
| CallBackgroundBlur (avatar : option string) (col : option ColorType)
                     (text : string).

Record CallingButtonProps := {
  buttonType : CallingButtonType;
  cb_onClick : Callback;
  tooltipDirection : TooltipPlacement
}.

Record ButtonProps := {
  className : string;
  disabled : bool;
  onClick : option Callback;
  children : ReactNode
}.

(** The tree returned by the component. [info] is [None] where the source
    renders [null] in place of the summary line. *)
Record View := {
  header : CallingHeaderProps;
  video : VideoArea;
  videoButton : CallingButtonProps;
  audioButton : CallingButtonProps;
  info : option (list ReactNode);
  cancelButton : ButtonProps;
  joinButton : ButtonProps
}.

(** What the component returns to React from one call: the tree, and the
    two effects registered with [React.useEffect], in source order. *)
Record Rendered := {
  output : View;
  previewEffect : Effect Fn;
  keydownEffect : Effect (Callback * Callback)
}.

(** ** The component *)

(** Running a closure: the body each one has in the source. *)
Definition invoke (c : Callback) : Eff unit :=
  match c with
  | Prop_onCallCanceled f => emit (OnCallCanceled f)
  | Closure_toggleAudio hasLocalAudio setLocalAudio =>
      emit (SetLocalAudio setLocalAudio (negb hasLocalAudio))
  | Closure_toggleVideo hasLocalVideo setLocalVideo =>
      emit (SetLocalVideo setLocalVideo (negb hasLocalVideo))
  | Closure_join onJoinCall =>
      emit (SetIsCallConnecting true);;
      emit (OnJoinCall onJoinCall)
  end.

(** [React.useCallback(..., [hasLocalAudio, setLocalAudio])]: the closure
    is represented by its dependency list, so the memoised function and a
    fresh one are the same value exactly when React would reuse it. *)
Definition toggleAudio (hasLocalAudio : bool) (setLocalAudio : Fn) : Callback :=
  Closure_toggleAudio hasLocalAudio setLocalAudio.

Definition toggleVideo (hasLocalVideo : bool) (setLocalVideo : Fn) : Callback :=
  Closure_toggleVideo hasLocalVideo setLocalVideo.

Record KeyboardEvent := {
  shiftKey : bool;
  key : string
}.

Definition key_is (event : KeyboardEvent) (k : string) : bool :=
  bool_decide (key event = k).

Definition handleKeyDown (l : KeyListener) (event : KeyboardEvent) : Eff unit :=
  eventHandled ←
    (if shiftKey event && (key_is event "V" || key_is event "v") then
       invoke (kl_toggleVideo l);; mret true
     else if shiftKey event && (key_is event "M" || key_is event "m") then
       invoke (kl_toggleAudio l);; mret true
     else mret false : Eff bool);
  if (eventHandled : bool) then
    emit PreventDefault;;
    emit StopPropagation
  else mret tt.

Definition videoButtonType (hasLocalVideo : bool)
    (availableCameras : list MediaDeviceInfo) : CallingButtonType :=
  if hasLocalVideo then VIDEO_ON
  else if length availableCameras =? 0 then VIDEO_DISABLED
  else VIDEO_OFF.

Definition audioButtonType (hasLocalAudio : bool) : CallingButtonType :=
  if hasLocalAudio then AUDIO_ON else AUDIO_OFF.

Definition participantName (i18n : LocalizerType) (me : MeType)
    (participant : ConversationType) : string :=
  if JS.strict_eq (uuid participant) (me_uuid me) then i18n "you" None
  else JS.or (firstName participant) (title participant).

Definition participantNames (i18n : LocalizerType) (me : MeType)
    (peekedParticipants : list ConversationType) : list string :=
  map (participantName i18n me) peekedParticipants.

Definition hasYou (me : MeType)
    (peekedParticipants : list ConversationType) : bool :=
  JS.some (fun participant => JS.strict_eq (uuid participant) (me_uuid me))
          peekedParticipants.

Definition canJoin (isCallFull isCallConnecting : bool) : bool :=
  negb isCallFull && negb isCallConnecting.

Definition joinButtonChildren (i18n : LocalizerType)
    (isCallFull isCallConnecting : bool)
    (peekedParticipants : list ConversationType) : ReactNode :=
  if isCallFull then RText (i18n "calling__call-is-full" None)
  else if isCallConnecting then RSpinner "small"
  else if negb (length peekedParticipants =? 0) then
    RText (i18n "calling__join" None)
  else RText (i18n "calling__start" None).

(** [cond && node] inside JSX. *)
Definition when (cond : bool) (node : ReactNode) : ReactNode :=
  if cond then node else RFalse.

(** The children of the [module-calling-lobby__info] element. *)
Definition lobbySummary (i18n : LocalizerType) (participantNames : list string)
    (hasYou : bool) : list ReactNode :=
  let n := length participantNames in
  [ when (n =? 0) (RText (i18n "calling__lobby-summary--zero" None));
    when ((n =? 1) && hasYou)
      (RText (i18n "calling__lobby-summary--self" None));
    when ((n =? 1) && negb hasYou)
      (RText (i18n "calling__lobby-summary--single"
                (Some (ValuesArray participantNames))));
    when (n =? 2)
      (RText (i18n "calling__lobby-summary--double"
                (Some (ValuesObject [("first", participantNames !! 0);
                                     ("second", participantNames !! 1)]))));
    when (n =? 3)
      (RText (i18n "calling__lobby-summary--triple"
                (Some (ValuesObject [("first", participantNames !! 0);
                                     ("second", participantNames !! 1);
                                     ("third", participantNames !! 2)]))));
    when (3 <? n)
      (RText (i18n "calling__lobby-summary--many"
                (Some (ValuesObject
                   [("first", participantNames !! 0);
                    ("second", participantNames !! 1);
                    ("others", Some (JS.String (Z.of_nat n - 2)))])))) ].

Definition CallingLobby (props : PropsType) (isCallConnecting : bool)
    : Rendered :=
  let availableCameras := availableCameras props in
  let hasLocalAudio := hasLocalAudio props in
  let hasLocalVideo := hasLocalVideo props in
  let i18n := i18n props in
  let isGroupCall := default false (isGroupCall props) in
  let isCallFull := default false (isCallFull props) in
  let me := me props in
  let peekedParticipants := peekedParticipants props in
  let setLocalPreview := setLocalPreview props in
  let toggleAudio := toggleAudio hasLocalAudio (setLocalAudio props) in
  let toggleVideo := toggleVideo hasLocalVideo (setLocalVideo props) in
  (* the [handleKeyDown] closure of this render *)
  let handleKeyDown :=
    {| kl_toggleVideo := toggleVideo; kl_toggleAudio := toggleAudio |} in
  let videoButtonType := videoButtonType hasLocalVideo availableCameras in
  let audioButtonType := audioButtonType hasLocalAudio in
  let participantNames := participantNames i18n me peekedParticipants in
  let hasYou := hasYou me peekedParticipants in
  let canJoin := canJoin isCallFull isCallConnecting in
  let joinButtonChildren :=
    joinButtonChildren i18n isCallFull isCallConnecting peekedParticipants in
  {| previewEffect :=
       {| deps := setLocalPreview;
          run := emit (SetLocalPreview setLocalPreview (Some localVideoRef));
          cleanup := emit (SetLocalPreview setLocalPreview None) |};
     keydownEffect :=
       {| deps := (toggleVideo, toggleAudio);
          run := emit (AddEventListener "keydown" handleKeyDown);
          cleanup := emit (RemoveEventListener "keydown" handleKeyDown) |};
     output :=
       {| header :=
            {| ch_title := conv_title (conversation props);
               ch_isGroupCall := isGroupCall;
               ch_participantCount := length peekedParticipants;
               ch_showParticipantsList := showParticipantsList props;
               ch_toggleParticipants := toggleParticipants props;
               ch_toggleSettings := toggleSettings props |};
          video :=
            if hasLocalVideo && (0 <? length availableCameras) then
              Video localVideoRef
            else
              CallBackgroundBlur (avatarPath me) (color me)
                (i18n "calling__your-video-is-off" None);
          videoButton :=
            {| buttonType := videoButtonType;
               cb_onClick := toggleVideo;
               tooltipDirection := Top |};
          audioButton :=
            {| buttonType := audioButtonType;
               cb_onClick := toggleAudio;
               tooltipDirection := Top |};
          info :=
            if isGroupCall then Some (lobbySummary i18n participantNames hasYou)
            else None;
          cancelButton :=
            {| className := "module-button__gray module-calling-lobby__button";
               disabled := false;
               onClick := Some (Prop_onCallCanceled (onCallCanceled props));
               children := RText (i18n "cancel" None) |};
          joinButton :=
            {| className := "module-button__green module-calling-lobby__button";
               disabled := negb canJoin;
               onClick :=
                 if canJoin then Some (Closure_join (onJoinCall props))
                 else None;
               children := joinButtonChildren |} |} |}.

(** ** Life cycle of a mounted instance

    React calls the component and commits the tree it returns. An effect
    passed to [React.useEffect] does not run in the commit: it is scheduled
    when its dependencies changed (always on mount) and runs later, the
    cleanup of its previous run first; React runs what is scheduled before
    it renders again and before it unmounts. Calls of the state setter are
    queued and take effect at the next render. Event handlers are the
    closures of the committed tree, so they see the values of the render
    that created them. *)

Record Mounted := {
  props : PropsType;
  isCallConnecting : bool;
  queue : list bool;
  ranPreview : option (Effect Fn);
  ranKeydown : option (Effect (Callback * Callback));
  pendingPreview : option (Effect Fn);
  pendingKeydown : option (Effect (Callback * Callback));
  committed : View;
  document : list (string * KeyListener)
}.

Definition enqueue (value : bool) (m : Mounted) : Mounted :=
  {| props := props m; isCallConnecting := isCallConnecting m;
     queue := queue m ++ [value];
     ranPreview := ranPreview m; ranKeydown := ranKeydown m;
     pendingPreview := pendingPreview m; pendingKeydown := pendingKeydown m;
     committed := committed m; document := document m |}.

Definition set_document (d : list (string * KeyListener)) (m : Mounted)
    : Mounted :=
  {| props := props m; isCallConnecting := isCallConnecting m;
     queue := queue m;
     ranPreview := ranPreview m; ranKeydown := ranKeydown m;
     pendingPreview := pendingPreview m; pendingKeydown := pendingKeydown m;
     committed := committed m; document := d |}.

(** [document.addEventListener] ignores a listener that is already
    registered for the type; [removeEventListener] drops it. *)
Definition addEventListener (type : string) (l : KeyListener)
    (d : list (string * KeyListener)) : list (string * KeyListener) :=
  if bool_decide ((type, l) ∈ d) then d else d ++ [(type, l)].

Definition removeEventListener (type : string) (l : KeyListener)
    (d : list (string * KeyListener)) : list (string * KeyListener) :=
  List.filter (fun e => negb (bool_decide (e = (type, l)))) d.

(** The part of a call that lands in the instance or in the document;
    calls of callback props leave both alone. *)
Definition perform (m : Mounted) (a : Action) : Mounted :=
  match a with
  | SetIsCallConnecting value => enqueue value m
  | AddEventListener type l =>
      set_document (addEventListener type l (document m)) m
  | RemoveEventListener type l =>
      set_document (removeEventListener type l (document m)) m
  | _ => m
  end.

(** Run a computation against the instance: its calls are performed and
    logged. *)
Definition exec (c : Eff unit) (m : Mounted) : Eff Mounted :=
  (foldl perform m (calls c), calls c).

Inductive Event :=
| ClickJoin
| ClickCancel
| ClickVideoButton
| ClickAudioButton
| KeyDown (event : KeyboardEvent)
| Render (props : PropsType)
| FlushEffects.

(** A click on a [<button>]: nothing when it is disabled or has no
    handler. *)
Definition click (b : ButtonProps) : Eff unit :=
  if disabled b then mret tt
  else match onClick b with
       | Some handler => invoke handler
       | None => mret tt
       end.

(** A keydown on the document reaches every listener registered for it. *)
Fixpoint dispatchKeyDown (d : list (string * KeyListener))
    (event : KeyboardEvent) : Eff unit :=
  match d with
  | [] => mret tt
  | (type, l) :: rest =>
      (if bool_decide (type = "keydown") then handleKeyDown l event
       else mret tt);;
      dispatchKeyDown rest event
  end.

(** The state cell after the queued updates. *)
Definition flushed (m : Mounted) : bool :=
  foldl (fun _ value => value) (isCallConnecting m) (queue m).

(** [React.useEffect(effect, deps)] during a render: the effect is
    scheduled on mount and whenever its dependencies differ from those of
    the run in force. (Scheduled effects have run by the time of the next
    render, so the run in force is that of the previous render's
    dependencies.) *)
Definition schedule {D} `{EqDecision D} (ran : option (Effect D))
    (e : Effect D) : option (Effect D) :=
  match ran with
  | Some old => if bool_decide (deps e = deps old) then None else Some e
  | None => Some e
  end.

(** The cleanup a scheduled effect replaces, and its own run. *)
Definition cleanupFor {D} (pending ran : option (Effect D)) : Eff unit :=
  match pending, ran with
  | Some _, Some old => cleanup old
  | _, _ => mret tt
  end.

Definition runOf {D} (pending : option (Effect D)) : Eff unit :=
  match pending with
  | Some e => run e
  | None => mret tt
  end.

Definition inForce {D} (pending ran : option (Effect D))
    : option (Effect D) :=
  match pending with
  | Some e => Some e
  | None => ran
  end.

Definition cleanupOf {D} (ran : option (Effect D)) : Eff unit :=
  match ran with
  | Some e => cleanup e
  | None => mret tt
  end.

(** The mount commit: the tree is committed, both effects are scheduled,
    nothing has been called yet. *)
Definition mount (p : PropsType) : Eff Mounted :=
  let r := CallingLobby p false in
  mret {| props := p; isCallConnecting := false; queue := [];
          ranPreview := None; ranKeydown := None;
          pendingPreview := schedule None (previewEffect r);
          pendingKeydown := schedule None (keydownEffect r);
          committed := output r; document := [] |}.

(** React runs the scheduled effects: the cleanups of the runs they
    replace first, in source order, then the effects, in source order. *)
Definition flushEffects (m : Mounted) : Eff Mounted :=
  exec (cleanupFor (pendingPreview m) (ranPreview m);;
        cleanupFor (pendingKeydown m) (ranKeydown m);;
        runOf (pendingPreview m);;
        runOf (pendingKeydown m))
    {| props := props m; isCallConnecting := isCallConnecting m;
       queue := queue m;
       ranPreview := inForce (pendingPreview m) (ranPreview m);
       ranKeydown := inForce (pendingKeydown m) (ranKeydown m);
       pendingPreview := None; pendingKeydown := None;
       committed := committed m; document := document m |}.

(** A render: effects still scheduled run first; then the component is
    called with the new props and the state cell after its queued updates,
    its tree is committed and its effects are scheduled. *)
Definition rerender (p : PropsType) (m : Mounted) : Eff Mounted :=
  m ← flushEffects m;
  let c := flushed m in
  let r := CallingLobby p c in
  mret {| props := p; isCallConnecting := c; queue := [];
          ranPreview := ranPreview m; ranKeydown := ranKeydown m;
          pendingPreview := schedule (ranPreview m) (previewEffect r);
          pendingKeydown := schedule (ranKeydown m) (keydownEffect r);
          committed := output r; document := document m |}.

Definition step (ev : Event) (m : Mounted) : Eff Mounted :=
  match ev with
  | ClickJoin => exec (click (joinButton (committed m))) m
  | ClickCancel => exec (click (cancelButton (committed m))) m
  | ClickVideoButton => exec (invoke (cb_onClick (videoButton (committed m)))) m
  | ClickAudioButton => exec (invoke (cb_onClick (audioButton (committed m)))) m
  | KeyDown event => exec (dispatchKeyDown (document m) event) m
  | Render p => rerender p m
  | FlushEffects => flushEffects m
  end.

(** The unmount: effects still scheduled run first, then the cleanups of
    the runs in force, in source order. *)
Definition unmount (m : Mounted) : Eff Mounted :=
  m ← flushEffects m;
  exec (cleanupOf (ranPreview m);; cleanupOf (ranKeydown m)) m.

Fixpoint run_events (evs : list Event) (m : Mounted) : Eff Mounted :=
  match evs with
  | [] => mret m
  | ev :: rest => m' ← step ev m; run_events rest m'
  end.

(** A mounted instance after a sequence of events, with the log of every
    call made since (and including) the mount. *)
Definition session (p : PropsType) (evs : list Event) : Eff Mounted :=
  m ← mount p; run_events evs m.

(** The number of calls of the join intent in a log. *)
Definition is_join (a : Action) : bool :=
  match a with OnJoinCall _ => true | _ => false end.

Definition joins (log : list Action) : nat := length (List.filter is_join log).

(** ** Vocabulary of the properties *)

(** Props with one of the two defaulted flags replaced. *)
Definition with_isCallFull (v : option bool) (p : PropsType) : PropsType :=
  {| availableCameras := availableCameras p; conversation := conversation p;
     hasLocalAudio := hasLocalAudio p; hasLocalVideo := hasLocalVideo p;
     i18n := i18n p; isGroupCall := isGroupCall p; isCallFull := v;
     me := me p; onCallCanceled := onCallCanceled p;
     onJoinCall := onJoinCall p; peekedParticipants := peekedParticipants p;
     setLocalAudio := setLocalAudio p; setLocalVideo := setLocalVideo p;
     setLocalPreview := setLocalPreview p;
     showParticipantsList := showParticipantsList p;
     toggleParticipants := toggleParticipants p;
     toggleSettings := toggleSettings p |}.

Definition with_isGroupCall (v : option bool) (p : PropsType) : PropsType :=
  {| availableCameras := availableCameras p; conversation := conversation p;
     hasLocalAudio := hasLocalAudio p; hasLocalVideo := hasLocalVideo p;
     i18n := i18n p; isGroupCall := v; isCallFull := isCallFull p;
     me := me p; onCallCanceled := onCallCanceled p;
     onJoinCall := onJoinCall p; peekedParticipants := peekedParticipants p;
     setLocalAudio := setLocalAudio p; setLocalVideo := setLocalVideo p;
     setLocalPreview := setLocalPreview p;
     showParticipantsList := showParticipantsList p;
     toggleParticipants := toggleParticipants p;
     toggleSettings := toggleSettings p |}.

(** The [handleKeyDown] closure created by a render with props [p]. *)
Definition listenerOf (p : PropsType) : KeyListener :=
  {| kl_toggleVideo := toggleVideo (hasLocalVideo p) (setLocalVideo p);
     kl_toggleAudio := toggleAudio (hasLocalAudio p) (setLocalAudio p) |}.

(** The keydown effect registered by a render whose listener is [l]. *)
Definition keydownEffectOf (l : KeyListener) : Effect (Callback * Callback) :=
  {| deps := (kl_toggleVideo l, kl_toggleAudio l);
     run := emit (AddEventListener "keydown" l);
     cleanup := emit (RemoveEventListener "keydown" l) |}.

(** Calls a handler may make: anything but a call on the document, and
    the state setter only with [true]. *)
Definition handler_action (a : Action) : Prop :=
  match a with
  | AddEventListener _ _ | RemoveEventListener _ _ => False
  | SetIsCallConnecting value => value = true
  | _ => True
  end.

(** Whether a click on the join button of the committed tree runs the join
    closure. *)
Definition joinable (m : Mounted) : bool :=
  canJoin (default false (isCallFull (props m))) (isCallConnecting m).

Definition is_render (ev : Event) : bool :=
  match ev with Render _ => true | _ => false end.

(** Calls made by the two effects: registrations of the preview target
    and of the keydown listener. *)
Definition is_preview_call (a : Action) : bool :=
  match a with SetLocalPreview _ _ => true | _ => false end.

Definition is_effect_call (a : Action) : bool :=
  match a with
  | SetLocalPreview _ _ | AddEventListener _ _ | RemoveEventListener _ _ => true
  | _ => false
  end.

(** A sequence of events whose renders keep the dependencies of both
    effects of the render with props [p]. *)
Definition keeps_deps (p : PropsType) (ev : Event) : bool :=
  match ev with
  | Render p' =>
      bool_decide (setLocalPreview p' = setLocalPreview p) &&
      bool_decide (listenerOf p' = listenerOf p)
  | _ => true
  end.

(** Whether a join has been requested: the flag is up, or an update of it
    is queued. *)
Definition requested (m : Mounted) : bool :=
  isCallConnecting m || negb (bool_decide (queue m = [])).

(** Counting calls of one kind in a log. *)
Definition count (kind : Action -> bool) (log : list Action) : nat :=
  length (List.filter kind log).

Definition is_add (a : Action) : bool :=
  match a with AddEventListener _ _ => true | _ => false end.

Definition is_remove (a : Action) : bool :=
  match a with RemoveEventListener _ _ => true | _ => false end.

Definition is_register (a : Action) : bool :=
  match a with SetLocalPreview _ (Some _) => true | _ => false end.

Definition is_deregister (a : Action) : bool :=
  match a with SetLocalPreview _ None => true | _ => false end.

Definition is_setter (a : Action) : bool :=
  match a with SetIsCallConnecting _ => true | _ => false end.

Definition is_click_join (ev : Event) : bool :=
  match ev with ClickJoin => true | _ => false end.

(** Whether a click on the join button has run the join closure of the
    committed tree and the render that follows has not happened yet. *)
Definition join_queued (m : Mounted) : bool :=
  negb (bool_decide (queue m = [])).

(** The clicks on the join button, in a sequence of events run from [m],
    that arrive while [join_queued]: after a click that ran the join
    closure and before the next render. *)
Fixpoint clicks_before_rerender (evs : list Event) (m : Mounted) : nat :=
  match evs with
  | [] => 0
  | ev :: rest =>
      (if is_click_join ev && join_queued m then 1 else 0) +
      clicks_before_rerender rest (step ev m).1
  end.

(** The events that run a handler of the component. *)
Definition is_handler (ev : Event) : bool :=
  match ev with Render _ | FlushEffects => false | _ => true end.

(** The preview effect registered by a render that received [f] as
    [setLocalPreview]. *)
Definition previewEffectOf (f : Fn) : Effect Fn :=
  {| deps := f;
     run := emit (SetLocalPreview f (Some localVideoRef));
     cleanup := emit (SetLocalPreview f None) |}.

(** Whether the effects of the mount have run. *)
Definition effects_ran (m : Mounted) : bool :=
  match ranPreview m with
  | Some _ => true
  | None => false
  end.

(** Whether an effect of the last render is still to run. *)
Definition effects_pending (m : Mounted) : bool :=
  match pendingPreview m, pendingKeydown m with
  | None, None => false
  | _, _ => true
  end.

(** The most recent call of [setLocalPreview] in a log. *)
Definition last_preview_call (log : list Action) : option Action :=
  last (List.filter is_preview_call log).

(** What holds of every instance between events: the committed tree is
    that of the last render; an effect is scheduled exactly when the last
    render's dependencies differ from those of the run in force; either no
    effect has run yet and the document holds no listener, or both have
    and the document holds the listener of the keydown run in force, made
    by some render; and only [true] is ever queued for the state cell. *)
Record consistent (m : Mounted) : Prop := {
  cons_committed :
    committed m = output (CallingLobby (props m) (isCallConnecting m));
  cons_pendingPreview :
    pendingPreview m =
    schedule (ranPreview m)
      (previewEffect (CallingLobby (props m) (isCallConnecting m)));
  cons_pendingKeydown :
    pendingKeydown m =
    schedule (ranKeydown m)
      (keydownEffect (CallingLobby (props m) (isCallConnecting m)));
  cons_ran :
    (ranPreview m = None /\ ranKeydown m = None /\ document m = []) \/
    (exists f q,
       ranPreview m = Some (previewEffectOf f) /\
       ranKeydown m = Some (keydownEffectOf (listenerOf q)) /\
       document m = [("keydown", listenerOf q)]);
  cons_queue : Forall (eq true) (queue m)
}.

(** ** Sample data

    A localizer that spells out the key and the replacement values it was
    given, and a group call with five peeked participants. *)

Module Sample.

Definition show_field (kv : string * option string) : string :=
  kv.1 +:+ "=" +:+ default "undefined" kv.2.

Definition spell : LocalizerType := fun key values =>
  match values with
  | None => key
  | Some (ValuesArray l) => key +:+ "[" +:+ String.concat "," l +:+ "]"
  | Some (ValuesObject l) =>
      key +:+ "{" +:+ String.concat "," (map show_field l) +:+ "}"
  end.

Definition person (id first full : string) : ConversationType :=
  {| uuid := Some id; firstName := Some first; title := full |}.

Definition bob := person "uuid-bob" "Bob" "Bob Brown".
Definition carol := person "uuid-carol" "Carol" "Carol Clark".
Definition dan := person "uuid-dan" "Dan" "Dan Drake".
Definition eve := person "uuid-eve" "" "Eve Ellis".
Definition self := person "uuid-me" "Me" "Me Myself".

Definition lobby (peeked : list ConversationType) : PropsType :=
  {| availableCameras := ["camera-0"];
     conversation := {| conv_title := "Book club" |};
     hasLocalAudio := true;
     hasLocalVideo := false;
     i18n := spell;
     isGroupCall := Some true;
     isCallFull := None;
     me := {| avatarPath := None; color := None; me_uuid := "uuid-me" |};
     onCallCanceled := 1;
     onJoinCall := 2;
     peekedParticipants := peeked;
     setLocalAudio := 3;
     setLocalVideo := 4;
     setLocalPreview := 5;
     showParticipantsList := false;
     toggleParticipants := 6;
     toggleSettings := 7 |}.

Definition five : list ConversationType := [bob; carol; dan; eve; self].

(** The same lobby after the store switched local video on. *)
Definition lobby_video_on (peeked : list ConversationType) : PropsType :=
  {| availableCameras := ["camera-0"];
     conversation := {| conv_title := "Book club" |};
     hasLocalAudio := true;
     hasLocalVideo := true;
     i18n := spell;
     isGroupCall := Some true;
     isCallFull := None;
     me := {| avatarPath := None; color := None; me_uuid := "uuid-me" |};
     onCallCanceled := 1;
     onJoinCall := 2;
     peekedParticipants := peeked;
     setLocalAudio := 3;
     setLocalVideo := 4;
     setLocalPreview := 5;
     showParticipantsList := false;
     toggleParticipants := 6;
     toggleSettings := 7 |}.

Definition shiftV : KeyboardEvent := {| shiftKey := true; key := "V" |}.

End Sample.

(** * Properties *)

(** ** Participant summary *)

Lemma participantNames_length i18n me peeked :
  length (participantNames i18n me peeked) = length peeked.
Proof. unfold participantNames. apply length_map. Qed.

Lemma hasYou_single me a :
  hasYou me [a] = JS.strict_eq (uuid a) (me_uuid me).
Proof. unfold hasYou, JS.some. simpl. apply orb_false_r. Qed.

(** The summary line for zero, one (self), one (other), two, three and
    five peeked participants, spelled out by the sample localizer. *)
Example summary_examples :
  map (fun peeked =>
         option_map rendered
           (info (output (CallingLobby (Sample.lobby peeked) false))))
      [[]; [Sample.self]; [Sample.bob]; [Sample.bob; Sample.carol];
       [Sample.bob; Sample.carol; Sample.dan]; Sample.five] =
  map (fun text => Some [RText text])
      ["calling__lobby-summary--zero";
       "calling__lobby-summary--self";
       "calling__lobby-summary--single[Bob]";
       "calling__lobby-summary--double{first=Bob,second=Carol}";
       "calling__lobby-summary--triple{first=Bob,second=Carol,third=Dan}";
       "calling__lobby-summary--many{first=Bob,second=Carol,others=3}"].
Proof. reflexivity. Qed.

(** The raw children for two participants: every guard but one yields
    [false]. *)
Example summary_children_two :
  info (output (CallingLobby (Sample.lobby [Sample.bob; Sample.carol]) false))
  = Some [RFalse; RFalse; RFalse;
          RText "calling__lobby-summary--double{first=Bob,second=Carol}";
          RFalse; RFalse].
Proof. reflexivity. Qed.

(** C1. In a group call the summary line shows exactly one string, chosen
    by the number of peeked participants: none, the local user alone,
    one other (named), two (both named), three (all named), or more than
    three (the first two named and the count of the others, the length
    minus two). *)
Theorem summary_by_cardinality (p : PropsType) (c : bool) :
  isGroupCall p = Some true ->
  let t := i18n p in
  let name := participantName (i18n p) (me p) in
  option_map rendered (info (output (CallingLobby p c))) =
  Some
    match peekedParticipants p with
    | [] => [RText (t "calling__lobby-summary--zero" None)]
    | [a] =>
        if JS.strict_eq (uuid a) (me_uuid (me p)) then
          [RText (t "calling__lobby-summary--self" None)]
        else
          [RText (t "calling__lobby-summary--single"
                    (Some (ValuesArray [name a])))]
    | [a; b] =>
        [RText (t "calling__lobby-summary--double"
                  (Some (ValuesObject [("first", Some (name a));
                                       ("second", Some (name b))])))]
    | [a; b; d] =>
        [RText (t "calling__lobby-summary--triple"
                  (Some (ValuesObject [("first", Some (name a));
                                       ("second", Some (name b));
                                       ("third", Some (name d))])))]
    | a :: b :: _ =>
        [RText (t "calling__lobby-summary--many"
                  (Some (ValuesObject
                     [("first", Some (name a));
                      ("second", Some (name b));
                      ("others",
                       Some (JS.String
                               (Z.of_nat (length (peekedParticipants p))
                                - 2)))])))]
    end.
Proof.
  intros Hgroup t name. unfold CallingLobby. rewrite Hgroup. cbn [default info output option_map].
  unfold lobbySummary. rewrite participantNames_length.
  destruct (peekedParticipants p) as [|a [|b [|d [|e rest]]]]; try reflexivity.
  rewrite hasYou_single.
  destruct (JS.strict_eq (uuid a) (me_uuid (me p))); reflexivity.
Qed.

Lemma summary_by_cardinality_witness :
  isGroupCall (Sample.lobby Sample.five) = Some true /\
  option_map rendered
    (info (output (CallingLobby (Sample.lobby Sample.five) false))) =
  Some [RText "calling__lobby-summary--many{first=Bob,second=Carol,others=3}"].
Proof.
  split; [reflexivity|].
  exact (summary_by_cardinality (Sample.lobby Sample.five) false eq_refl).
Defined.

(** C10. The name of a peeked participant in the summary is the localized
    "you" when the participant is the local user, otherwise the first name
    when there is a non-empty one, otherwise the title. *)
Theorem participant_name_rule (p : PropsType) (i : nat)
    (participant : ConversationType) :
  peekedParticipants p !! i = Some participant ->
  exists name,
    participantNames (i18n p) (me p) (peekedParticipants p) !! i = Some name /\
    (uuid participant = Some (me_uuid (me p)) -> name = i18n p "you" None) /\
    (uuid participant <> Some (me_uuid (me p)) ->
     (forall s, firstName participant = Some s -> s <> "" -> name = s) /\
     (firstName participant = None \/ firstName participant = Some "" ->
      name = title participant)).
Proof.
  intros Hi. exists (participantName (i18n p) (me p) participant).
  split.
  { unfold participantNames. rewrite list_lookup_fmap, Hi. reflexivity. }
  unfold participantName, JS.strict_eq, JS.or.
  split.
  - intros ->. rewrite bool_decide_eq_true_2 by reflexivity. reflexivity.
  - intros Hne.
    destruct (uuid participant) as [u|].
    + rewrite bool_decide_eq_false_2 by congruence.
      split.
      * intros s -> Hs. destruct (decide (s = "")); [contradiction|reflexivity].
      * intros [-> | ->]; reflexivity.
    + split.
      * intros s -> Hs. destruct (decide (s = "")); [contradiction|reflexivity].
      * intros [-> | ->]; reflexivity.
Qed.

Lemma participant_name_rule_witness :
  exists name,
    participantNames Sample.spell (me (Sample.lobby Sample.five)) Sample.five
      !! 3 = Some name /\
    name = "Eve Ellis".
Proof.
  destruct (participant_name_rule (Sample.lobby Sample.five) 3 Sample.eve
              eq_refl) as (name & Hname & _ & Hother).
  exists name. split; [exact Hname|].
  apply Hother; [discriminate | right; reflexivity].
Defined.

(** ** Basic facts about the life cycle *)

Lemma calls_bind {A B} (a : Eff A) (k : A -> Eff B) :
  calls (x ← a; k x) = calls a ++ calls (k a.1).
Proof. reflexivity. Qed.

Lemma value_bind {A B} (a : Eff A) (k : A -> Eff B) :
  (x ← a; k x).1 = (k a.1).1.
Proof. reflexivity. Qed.

Lemma calls_exec c m : calls (exec c m) = calls c.
Proof. reflexivity. Qed.

Lemma bind_ret {A} (a : Eff A) : (x ← a; mret x) = a.
Proof.
  destruct a as [x log]. unfold mbind, Eff_bind, mret, Eff_ret. cbn.
  rewrite app_nil_r. reflexivity.
Qed.

Lemma bind_assoc {A B C} (a : Eff A) (k : A -> Eff B) (h : B -> Eff C) :
  (y ← (x ← a; k x); h y) = (x ← a; y ← k x; h y).
Proof.
  unfold mbind, Eff_bind. cbn. rewrite app_assoc. reflexivity.
Qed.

Lemma run_events_app evs1 evs2 m :
  run_events (evs1 ++ evs2) m = (m' ← run_events evs1 m; run_events evs2 m').
Proof.
  revert m. induction evs1 as [|e evs1 IH]; intros m.
  - cbn. unfold mbind, Eff_bind. cbn. destruct (run_events evs2 m); reflexivity.
  - cbn [app run_events]. rewrite bind_assoc.
    unfold mbind at 1 3, Eff_bind. rewrite IH. reflexivity.
Qed.

Lemma run_events_single ev m : run_events [ev] m = step ev m.
Proof. cbn [run_events]. apply bind_ret. Qed.

Lemma session_snoc p evs ev :
  session p (evs ++ [ev]) = (m ← session p evs; step ev m).
Proof.
  unfold session. generalize (mount p). intros [m0 log0].
  unfold mbind at 1, Eff_bind at 1. rewrite run_events_app.
  unfold mbind, Eff_bind. rewrite run_events_single.
  cbn [fst snd]. rewrite app_assoc. reflexivity.
Qed.

(** The effects of a render depend on the props only through their
    dependency lists; the state cell plays no part. *)
Lemma keydownEffect_eq p c :
  keydownEffect (CallingLobby p c) = keydownEffectOf (listenerOf p).
Proof. reflexivity. Qed.

Lemma previewEffect_eq p c :
  previewEffect (CallingLobby p c) = previewEffectOf (setLocalPreview p).
Proof. reflexivity. Qed.

Lemma keydown_deps_inj l1 l2 :
  deps (keydownEffectOf l1) = deps (keydownEffectOf l2) -> l1 = l2.
Proof. destruct l1, l2. cbn. congruence. Qed.

Lemma schedule_preview f f0 :
  schedule (Some (previewEffectOf f0)) (previewEffectOf f) =
  if bool_decide (f = f0) then None else Some (previewEffectOf f).
Proof. reflexivity. Qed.

Lemma schedule_keydown l l0 :
  schedule (Some (keydownEffectOf l0)) (keydownEffectOf l) =
  if bool_decide (l = l0) then None else Some (keydownEffectOf l).
Proof.
  unfold schedule.
  rewrite (bool_decide_ext (deps (keydownEffectOf l) =
                            deps (keydownEffectOf l0)) (l = l0));
    [reflexivity|].
  split; [apply keydown_deps_inj | congruence].
Qed.

Lemma addEventListener_nil type l : addEventListener type l [] = [(type, l)].
Proof. reflexivity. Qed.

Lemma removeEventListener_single type l :
  removeEventListener type l [(type, l)] = [].
Proof.
  unfold removeEventListener. cbn.
  rewrite bool_decide_eq_true_2 by reflexivity. reflexivity.
Qed.

Lemma invoke_handler_actions c : Forall handler_action (calls (invoke c)).
Proof. destruct c; cbn; repeat constructor. Qed.

Lemma click_handler_actions b : Forall handler_action (calls (click b)).
Proof.
  unfold click. destruct (disabled b); [constructor|].
  destruct (onClick b); [apply invoke_handler_actions | constructor].
Qed.

Lemma handleKeyDown_handler_actions l event :
  Forall handler_action (calls (handleKeyDown l event)).
Proof.
  unfold handleKeyDown.
  destruct (shiftKey event && (key_is event "V" || key_is event "v")).
  - rewrite !calls_bind. cbn [calls fst snd mret Eff_ret].
    rewrite !Forall_app. repeat split; try apply invoke_handler_actions;
      repeat constructor.
  - destruct (shiftKey event && (key_is event "M" || key_is event "m")).
    + rewrite !calls_bind. cbn [calls fst snd mret Eff_ret].
      rewrite !Forall_app. repeat split; try apply invoke_handler_actions;
        repeat constructor.
    + constructor.
Qed.

Lemma dispatchKeyDown_handler_actions d event :
  Forall handler_action (calls (dispatchKeyDown d event)).
Proof.
  induction d as [|[type l] d IH]; [constructor|].
  cbn [dispatchKeyDown]. rewrite calls_bind. apply Forall_app. split; [|exact IH].
  destruct (bool_decide (type = "keydown"));
    [apply handleKeyDown_handler_actions | constructor].
Qed.

(** Performing handler calls only appends [true]s to the queue. *)
Lemma perform_handler_actions acts : forall m,
  Forall handler_action acts ->
  let m' := foldl perform m acts in
  props m' = props m /\ isCallConnecting m' = isCallConnecting m /\
  ranPreview m' = ranPreview m /\ ranKeydown m' = ranKeydown m /\
  pendingPreview m' = pendingPreview m /\
  pendingKeydown m' = pendingKeydown m /\
  committed m' = committed m /\ document m' = document m /\
  exists q, queue m' = queue m ++ q /\ Forall (eq true) q /\
            length q = length (List.filter
              (fun a => match a with SetIsCallConnecting _ => true | _ => false end)
              acts).
Proof.
  induction acts as [|a acts IH]; intros m Hacts.
  - cbn. repeat split. exists []. rewrite app_nil_r. repeat split. constructor.
  - inversion Hacts as [|? ? Ha Hrest]; subst.
    cbn [foldl]. specialize (IH (perform m a) Hrest).
    destruct IH as (Hp & Hc & Hrp & Hrk & Hpp & Hpk & Hv & Hd & q & Hq & Hall
                    & Hlen).
    destruct a; cbn in Ha; try contradiction; cbn [perform] in *;
      try (repeat split; try assumption; exists q; repeat split; assumption).
    subst value. cbn in *.
    repeat split; try assumption.
    exists (true :: q). rewrite Hq, <- app_assoc. cbn.
    repeat split; [constructor; [reflexivity|assumption] | congruence].
Qed.

Lemma exec_handler_consistent c m :
  Forall handler_action (calls c) -> consistent m -> consistent (exec c m).1.
Proof.
  intros Hc [H1 H2 H3 H4 H5]. cbn [exec fst].
  destruct (perform_handler_actions (calls c) m Hc)
    as (Hp & Hcn & Hrp & Hrk & Hpp & Hpk & Hv & Hd & q & Hq & Hall & _).
  constructor.
  - rewrite Hv, Hp, Hcn. exact H1.
  - rewrite Hpp, Hrp, Hp, Hcn. exact H2.
  - rewrite Hpk, Hrk, Hp, Hcn. exact H3.
  - rewrite Hrp, Hrk, Hd. exact H4.
  - rewrite Hq. apply Forall_app. split; assumption.
Qed.

Lemma mount_consistent p : consistent (mount p).1.
Proof.
  constructor; try reflexivity; [left; repeat split | constructor].
Qed.

(** What running the scheduled effects leaves behind: the runs in force
    are those of the last render, nothing is scheduled, and the document
    holds the listener of the last render. *)
Lemma flushEffects_spec m :
  consistent m ->
  let m' := (flushEffects m).1 in
  consistent m' /\
  props m' = props m /\ isCallConnecting m' = isCallConnecting m /\
  queue m' = queue m /\ committed m' = committed m /\
  ranPreview m' = Some (previewEffectOf (setLocalPreview (props m))) /\
  ranKeydown m' = Some (keydownEffectOf (listenerOf (props m))) /\
  pendingPreview m' = None /\ pendingKeydown m' = None /\
  document m' = [("keydown", listenerOf (props m))].
Proof.
  intros [H1 H2 H3 H4 H5]. destruct m as [p c q rp rk pp pk v d].
  cbn [props isCallConnecting queue ranPreview ranKeydown pendingPreview
       pendingKeydown committed document] in *.
  rewrite keydownEffect_eq in H3. rewrite previewEffect_eq in H2.
  assert (Hgoal :
    let m' := (flushEffects
      {| props := p; isCallConnecting := c; queue := q; ranPreview := rp;
         ranKeydown := rk; pendingPreview := pp; pendingKeydown := pk;
         committed := v; document := d |}).1 in
    props m' = p /\ isCallConnecting m' = c /\ queue m' = q /\
    committed m' = v /\
    ranPreview m' = Some (previewEffectOf (setLocalPreview p)) /\
    ranKeydown m' = Some (keydownEffectOf (listenerOf p)) /\
    pendingPreview m' = None /\ pendingKeydown m' = None /\
    document m' = [("keydown", listenerOf p)]).
  { destruct H4 as [(-> & -> & ->) | (f0 & q0 & -> & -> & ->)].
    - cbn [schedule] in H2, H3. subst pp pk. cbn. repeat split.
    - rewrite schedule_preview in H2. rewrite schedule_keydown in H3.
      subst pp pk.
      destruct (decide (setLocalPreview p = f0)) as [Ef|Ef];
        destruct (decide (listenerOf p = listenerOf q0)) as [El|El].
      all: rewrite ?(bool_decide_eq_true_2 _ Ef),
             ?(bool_decide_eq_false_2 _ Ef),
             ?(bool_decide_eq_true_2 _ El), ?(bool_decide_eq_false_2 _ El).
      all: cbn -[listenerOf removeEventListener addEventListener].
      all: rewrite ?removeEventListener_single, ?addEventListener_nil.
      all: rewrite <- ?Ef, <- ?El.
      all: repeat split. }
  cbn zeta in *.
  destruct Hgoal as (Gp & Gc & Gq & Gv & Grp & Grk & Gpp & Gpk & Gd).
  split; [|repeat split; assumption].
  constructor.
  - rewrite Gv, Gp, Gc. exact H1.
  - rewrite Gpp, Grp, Gp, Gc, previewEffect_eq, schedule_preview.
    rewrite bool_decide_eq_true_2 by reflexivity. reflexivity.
  - rewrite Gpk, Grk, Gp, Gc, keydownEffect_eq, schedule_keydown.
    rewrite bool_decide_eq_true_2 by reflexivity. reflexivity.
  - right. exists (setLocalPreview p), p. rewrite Grp, Grk, Gd. auto.
  - rewrite Gq. exact H5.
Qed.

(** The calls made by running the scheduled effects. *)
Lemma calls_flushEffects_first m :
  consistent m -> ranPreview m = None ->
  calls (flushEffects m) =
  [SetLocalPreview (setLocalPreview (props m)) (Some localVideoRef);
   AddEventListener "keydown" (listenerOf (props m))].
Proof.
  intros [_ H2 H3 H4 _] Hnone. unfold flushEffects. rewrite calls_exec.
  destruct H4 as [(Hrp & Hrk & _) | (f0 & q0 & Hrp & _)]; [|congruence].
  rewrite H2, H3, Hrp, Hrk. reflexivity.
Qed.

Lemma calls_flushEffects_later m f0 l0 :
  consistent m ->
  ranPreview m = Some (previewEffectOf f0) ->
  ranKeydown m = Some (keydownEffectOf l0) ->
  calls (flushEffects m) =
  let previewChanged := negb (bool_decide (setLocalPreview (props m) = f0)) in
  let keydownChanged := negb (bool_decide (listenerOf (props m) = l0)) in
  (if previewChanged then [SetLocalPreview f0 None] else []) ++
  (if keydownChanged then [RemoveEventListener "keydown" l0] else []) ++
  (if previewChanged
   then [SetLocalPreview (setLocalPreview (props m)) (Some localVideoRef)]
   else []) ++
  (if keydownChanged
   then [AddEventListener "keydown" (listenerOf (props m))] else []).
Proof.
  intros [_ H2 H3 _ _] Hrp Hrk. unfold flushEffects. rewrite calls_exec.
  rewrite H2, H3, Hrp, Hrk, previewEffect_eq, keydownEffect_eq.
  rewrite schedule_preview, schedule_keydown. cbn zeta.
  destruct (bool_decide (setLocalPreview (props m) = f0));
    destruct (bool_decide (listenerOf (props m) = l0)); reflexivity.
Qed.

Lemma flushEffects_effect_calls m :
  consistent m ->
  List.filter is_effect_call (calls (flushEffects m)) = calls (flushEffects m).
Proof.
  intros Hm. destruct (cons_ran m Hm) as [(Hrp & _) | (f0 & q0 & Hrp & Hrk & _)].
  - rewrite (calls_flushEffects_first m Hm Hrp). reflexivity.
  - rewrite (calls_flushEffects_later m f0 _ Hm Hrp Hrk). cbn zeta.
    destruct (negb (bool_decide (setLocalPreview (props m) = f0)));
      destruct (negb (bool_decide (listenerOf (props m) = listenerOf q0)));
      reflexivity.
Qed.

(** With nothing scheduled, the runs in force are those of the last render
    and running the scheduled effects does nothing. *)
Lemma settled m :
  consistent m -> effects_pending m = false ->
  ranPreview m = Some (previewEffectOf (setLocalPreview (props m))) /\
  ranKeydown m = Some (keydownEffectOf (listenerOf (props m))) /\
  document m = [("keydown", listenerOf (props m))] /\
  flushEffects m = (m, []).
Proof.
  intros [_ H2 H3 H4 _] Hpend. unfold effects_pending in Hpend.
  destruct m as [p c q rp rk pp pk v d].
  cbn [props isCallConnecting queue ranPreview ranKeydown pendingPreview
       pendingKeydown committed document] in *.
  destruct pp; [discriminate|]. destruct pk; [discriminate|].
  rewrite previewEffect_eq in H2. rewrite keydownEffect_eq in H3.
  destruct H4 as [(-> & -> & ->) | (f0 & q0 & -> & -> & ->)];
    [discriminate|].
  rewrite schedule_preview in H2. rewrite schedule_keydown in H3.
  destruct (decide (setLocalPreview p = f0)) as [Ef|Ef];
    [|rewrite (bool_decide_eq_false_2 _ Ef) in H2; discriminate].
  destruct (decide (listenerOf p = listenerOf q0)) as [El|El];
    [|rewrite (bool_decide_eq_false_2 _ El) in H3; discriminate].
  rewrite <- Ef, <- El. repeat split.
Qed.

Lemma rerender_spec p' m :
  consistent m ->
  let m1 := (rerender p' m).1 in
  consistent m1 /\
  props m1 = p' /\ isCallConnecting m1 = flushed m /\ queue m1 = [] /\
  ranPreview m1 = Some (previewEffectOf (setLocalPreview (props m))) /\
  ranKeydown m1 = Some (keydownEffectOf (listenerOf (props m))) /\
  document m1 = [("keydown", listenerOf (props m))] /\
  calls (rerender p' m) = calls (flushEffects m).
Proof.
  intros Hm. destruct (flushEffects_spec m Hm)
    as (Hm' & Gp & Gc & Gq & Gv & Grp & Grk & Gpp & Gpk & Gd).
  unfold rerender. rewrite value_bind, calls_bind.
  cbn [mret Eff_ret fst snd calls props isCallConnecting queue ranPreview
       ranKeydown pendingPreview pendingKeydown committed document].
  assert (Hfl : flushed (flushEffects m).1 = flushed m)
    by (unfold flushed; rewrite Gc, Gq; reflexivity).
  rewrite Hfl, app_nil_r.
  split; [|repeat split; assumption].
  constructor;
    cbn [props isCallConnecting queue ranPreview ranKeydown pendingPreview
         pendingKeydown committed document]; try reflexivity.
  - right. exists (setLocalPreview (props m)), (props m). auto.
  - constructor.
Qed.

Lemma step_consistent ev m : consistent m -> consistent (step ev m).1.
Proof.
  intros Hm. destruct ev; cbn [step].
  - apply exec_handler_consistent; [apply click_handler_actions | exact Hm].
  - apply exec_handler_consistent; [apply click_handler_actions | exact Hm].
  - apply exec_handler_consistent; [apply invoke_handler_actions | exact Hm].
  - apply exec_handler_consistent; [apply invoke_handler_actions | exact Hm].
  - apply exec_handler_consistent;
      [apply dispatchKeyDown_handler_actions | exact Hm].
  - apply rerender_spec. exact Hm.
  - apply flushEffects_spec. exact Hm.
Qed.

Lemma run_events_consistent evs : forall m,
  consistent m -> consistent (run_events evs m).1.
Proof.
  induction evs as [|ev evs IH]; intros m Hm; [exact Hm|].
  cbn [run_events]. rewrite value_bind. apply IH, step_consistent, Hm.
Qed.

Lemma session_consistent p evs : consistent (session p evs).1.
Proof.
  unfold session. rewrite value_bind.
  apply run_events_consistent, mount_consistent.
Qed.

(** Induction over the life of an instance, for properties of the instance
    together with the log of calls so far, along events that satisfy
    [allowed]. *)
Lemma session_ind_where (allowed : Event -> bool)
    (I : Mounted -> list Action -> Prop) (p : PropsType) :
  I (mount p).1 (calls (mount p)) ->
  (forall m log ev,
     allowed ev = true -> consistent m -> I m log ->
     I (step ev m).1 (log ++ calls (step ev m))) ->
  forall evs, forallb allowed evs = true ->
              I (session p evs).1 (calls (session p evs)).
Proof.
  intros Hmount Hstep evs. induction evs as [|ev evs IH] using rev_ind.
  - intros _. unfold session. rewrite value_bind, calls_bind. cbn [run_events].
    cbn [mret Eff_ret calls snd fst]. rewrite app_nil_r. exact Hmount.
  - intros Hall. rewrite forallb_app in Hall.
    apply andb_true_iff in Hall as [Hevs Hev]. cbn in Hev.
    rewrite andb_true_r in Hev.
    rewrite session_snoc, value_bind, calls_bind.
    apply Hstep; [exact Hev | apply session_consistent | apply IH, Hevs].
Qed.

Lemma session_ind (I : Mounted -> list Action -> Prop) (p : PropsType) :
  I (mount p).1 (calls (mount p)) ->
  (forall m log ev,
     consistent m -> I m log -> I (step ev m).1 (log ++ calls (step ev m))) ->
  forall evs, I (session p evs).1 (calls (session p evs)).
Proof.
  intros Hmount Hstep evs.
  apply (session_ind_where (fun _ => true) I p Hmount); [auto|].
  induction evs; [reflexivity | assumption].
Qed.

(** The calls made by each kind of event, in terms of the last render. *)
Lemma joinButton_committed m :
  consistent m ->
  joinButton (committed m) =
  let can := canJoin (default false (isCallFull (props m)))
                     (isCallConnecting m) in
  {| className := "module-button__green module-calling-lobby__button";
     disabled := negb can;
     onClick := if can then Some (Closure_join (onJoinCall (props m)))
                else None;
     children := joinButtonChildren (i18n (props m))
                   (default false (isCallFull (props m)))
                   (isCallConnecting m) (peekedParticipants (props m)) |}.
Proof. intros Hm. rewrite (cons_committed m Hm). reflexivity. Qed.

Lemma calls_ClickJoin m :
  consistent m ->
  calls (step ClickJoin m) =
  if canJoin (default false (isCallFull (props m))) (isCallConnecting m)
  then [SetIsCallConnecting true; OnJoinCall (onJoinCall (props m))]
  else [].
Proof.
  intros Hm. cbn [step]. rewrite calls_exec, (joinButton_committed m Hm).
  cbn zeta. unfold click. cbn [disabled onClick].
  destruct (canJoin _ _); reflexivity.
Qed.

Lemma calls_ClickCancel m :
  consistent m ->
  calls (step ClickCancel m) = [OnCallCanceled (onCallCanceled (props m))].
Proof.
  intros Hm. cbn [step]. rewrite calls_exec, (cons_committed m Hm). reflexivity.
Qed.

Lemma calls_ClickVideoButton m :
  consistent m ->
  calls (step ClickVideoButton m) =
  [SetLocalVideo (setLocalVideo (props m)) (negb (hasLocalVideo (props m)))].
Proof.
  intros Hm. cbn [step]. rewrite calls_exec, (cons_committed m Hm). reflexivity.
Qed.

Lemma calls_ClickAudioButton m :
  consistent m ->
  calls (step ClickAudioButton m) =
  [SetLocalAudio (setLocalAudio (props m)) (negb (hasLocalAudio (props m)))].
Proof.
  intros Hm. cbn [step]. rewrite calls_exec, (cons_committed m Hm). reflexivity.
Qed.

Lemma calls_handleKeyDown l event :
  calls (handleKeyDown l event) =
  if shiftKey event && (key_is event "V" || key_is event "v") then
    calls (invoke (kl_toggleVideo l)) ++ [PreventDefault; StopPropagation]
  else if shiftKey event && (key_is event "M" || key_is event "m") then
    calls (invoke (kl_toggleAudio l)) ++ [PreventDefault; StopPropagation]
  else [].
Proof.
  unfold handleKeyDown.
  destruct (shiftKey event && (key_is event "V" || key_is event "v")).
  - rewrite !calls_bind. cbn [mret Eff_ret calls fst snd].
    rewrite app_nil_r. reflexivity.
  - destruct (shiftKey event && (key_is event "M" || key_is event "m")).
    + rewrite !calls_bind. cbn [mret Eff_ret calls fst snd].
      rewrite app_nil_r. reflexivity.
    + reflexivity.
Qed.

Lemma calls_dispatch_single l event :
  calls (dispatchKeyDown [("keydown", l)] event) =
  calls (handleKeyDown l event).
Proof.
  cbn [dispatchKeyDown]. rewrite bool_decide_eq_true_2 by reflexivity.
  rewrite calls_bind. cbn [mret Eff_ret calls snd]. apply app_nil_r.
Qed.

(** A keydown reaches the listener of the keydown run in force: none
    before the first run, else the closure of some render. *)
Lemma calls_KeyDown_any m event :
  consistent m ->
  calls (step (KeyDown event) m) = [] \/
  exists q, calls (step (KeyDown event) m) =
            calls (handleKeyDown (listenerOf q) event).
Proof.
  intros Hm. cbn [step]. rewrite calls_exec.
  destruct (cons_ran m Hm) as [(_ & _ & ->) | (f0 & q0 & _ & _ & ->)].
  - left. reflexivity.
  - right. exists q0. apply calls_dispatch_single.
Qed.

Lemma calls_KeyDown m event :
  consistent m -> effects_pending m = false ->
  calls (step (KeyDown event) m) =
  calls (handleKeyDown (listenerOf (props m)) event).
Proof.
  intros Hm Hpend. cbn [step]. rewrite calls_exec.
  destruct (settled m Hm Hpend) as (_ & _ & -> & _).
  apply calls_dispatch_single.
Qed.

(** A render calls what running the effects still scheduled calls; its
    own effects run when React next runs the scheduled ones. *)
Lemma calls_Render p m :
  consistent m -> calls (step (Render p) m) = calls (flushEffects m).
Proof. intros Hm. cbn [step]. apply (rerender_spec p m Hm). Qed.

Lemma calls_effects_of_Render p m :
  consistent m ->
  calls (step FlushEffects (step (Render p) m).1) =
  let previewChanged :=
    negb (bool_decide (setLocalPreview p = setLocalPreview (props m))) in
  let keydownChanged :=
    negb (bool_decide (listenerOf p = listenerOf (props m))) in
  (if previewChanged
   then [SetLocalPreview (setLocalPreview (props m)) None] else []) ++
  (if keydownChanged
   then [RemoveEventListener "keydown" (listenerOf (props m))] else []) ++
  (if previewChanged
   then [SetLocalPreview (setLocalPreview p) (Some localVideoRef)] else []) ++
  (if keydownChanged
   then [AddEventListener "keydown" (listenerOf p)] else []).
Proof.
  intros Hm. cbn [step].
  destruct (rerender_spec p m Hm) as (Hm1 & Hp & _ & _ & Hrp & Hrk & _).
  rewrite (calls_flushEffects_later _ _ _ Hm1 Hrp Hrk), Hp. reflexivity.
Qed.

Lemma effect_call_in m a :
  consistent m -> a ∈ calls (flushEffects m) -> is_effect_call a = true.
Proof.
  intros Hm Hin. rewrite <- (flushEffects_effect_calls m Hm) in Hin.
  apply list_elem_of_In, List.filter_In in Hin. apply Hin.
Qed.

(** ** How each event changes the instance *)

Lemma flushed_queue m :
  Forall (eq true) (queue m) ->
  flushed m = isCallConnecting m || negb (bool_decide (queue m = [])).
Proof.
  unfold flushed. generalize (isCallConnecting m).
  induction (queue m) as [|v q IH]; intros c Hq.
  - cbn. rewrite orb_false_r. reflexivity.
  - inversion Hq as [|? ? Hv Hq']; subst. cbn [foldl].
    rewrite (IH true Hq'). cbn. rewrite orb_true_r. reflexivity.
Qed.

Lemma step_value ev m :
  is_handler ev = true ->
  (step ev m).1 = foldl perform m (calls (step ev m)).
Proof. destruct ev; intros Hev; try discriminate; reflexivity. Qed.

Lemma step_handler_state ev m :
  consistent m -> is_handler ev = true ->
  let m' := (step ev m).1 in
  props m' = props m /\ isCallConnecting m' = isCallConnecting m /\
  queue m' = queue m ++
    (match ev with ClickJoin => if joinable m then [true] else [] | _ => [] end).
Proof.
  intros Hm Hev. cbn zeta. rewrite (step_value ev m Hev).
  destruct ev; try discriminate.
  - rewrite (calls_ClickJoin m Hm). fold (joinable m).
    destruct (joinable m); cbn; rewrite ?app_nil_r; auto.
  - rewrite (calls_ClickCancel m Hm). cbn. rewrite app_nil_r. auto.
  - rewrite (calls_ClickVideoButton m Hm). cbn. rewrite app_nil_r. auto.
  - rewrite (calls_ClickAudioButton m Hm). cbn. rewrite app_nil_r. auto.
  - destruct (calls_KeyDown_any m event Hm) as [-> | [q ->]];
      [cbn; rewrite app_nil_r; auto|].
    rewrite calls_handleKeyDown.
    destruct (shiftKey event && (key_is event "V" || key_is event "v"));
      [|destruct (shiftKey event && (key_is event "M" || key_is event "m"))];
      cbn; rewrite app_nil_r; auto.
Qed.

(** A handler leaves the effects and the document alone. *)
Lemma step_handler_effects ev m :
  is_handler ev = true ->
  let m' := (step ev m).1 in
  effects_pending m' = effects_pending m /\ document m' = document m /\
  ranPreview m' = ranPreview m.
Proof.
  intros Hev. cbn zeta.
  assert (H : exists c, Forall handler_action (calls c) /\
                        step ev m = exec c m).
  { destruct ev; try discriminate; cbn [step]; eexists; (split; [|reflexivity]);
      auto using click_handler_actions, invoke_handler_actions,
        dispatchKeyDown_handler_actions. }
  destruct H as (c & Hc & ->). cbn [exec fst].
  destruct (perform_handler_actions (calls c) m Hc)
    as (_ & _ & Hrp & _ & Hpp & Hpk & _ & Hd & _).
  unfold effects_pending. rewrite Hpp, Hpk. auto.
Qed.

Lemma step_Render_state p m :
  consistent m ->
  let m' := (step (Render p) m).1 in
  props m' = p /\ isCallConnecting m' = flushed m /\ queue m' = [].
Proof.
  intros Hm. cbn [step].
  destruct (rerender_spec p m Hm) as (_ & Hp & Hc & Hq & _). auto.
Qed.

Lemma step_Flush_state m :
  consistent m ->
  let m' := (step FlushEffects m).1 in
  props m' = props m /\ isCallConnecting m' = isCallConnecting m /\
  queue m' = queue m /\ committed m' = committed m /\
  effects_pending m' = false.
Proof.
  intros Hm. cbn [step].
  destruct (flushEffects_spec m Hm)
    as (_ & Hp & Hc & Hq & Hv & _ & _ & Hpp & Hpk & _).
  unfold effects_pending. rewrite Hpp, Hpk. auto.
Qed.

(** ** Join eligibility *)

(** C4. The join button of the committed tree is enabled exactly when the
    call is not full and the connecting flag is down; while the call is
    full, a click on it leaves the instance as it is and calls nothing. *)
Theorem join_enabled_iff (p : PropsType) (evs : list Event) :
  let m := (session p evs).1 in
  (disabled (joinButton (committed m)) = false <->
   isCallFull (props m) <> Some true /\ isCallConnecting m = false) /\
  (isCallFull (props m) = Some true -> step ClickJoin m = (m, [])).
Proof.
  intros m. pose proof (session_consistent p evs) as Hm. fold m in Hm.
  split.
  - rewrite (joinButton_committed m Hm). cbn [disabled]. unfold canJoin.
    destruct (isCallFull (props m)) as [[|]|], (isCallConnecting m); cbn;
      split; try discriminate; try (intros [? ?]; congruence);
      try (intros _; split; congruence).
  - intros Hfull. cbn [step]. rewrite (joinButton_committed m Hm), Hfull.
    reflexivity.
Qed.

Lemma join_enabled_iff_witness :
  let p := with_isCallFull (Some true) (Sample.lobby Sample.five) in
  isCallFull (props (session p [ClickJoin]).1) = Some true /\
  step ClickJoin (session p [ClickJoin]).1 = ((session p [ClickJoin]).1, []).
Proof.
  intros p. split; [reflexivity|].
  exact (proj2 (join_enabled_iff p [ClickJoin]) eq_refl).
Defined.

(** ** The connecting flag *)

Lemma setter_only_from_join ev m v :
  consistent m ->
  SetIsCallConnecting v ∈ calls (step ev m) ->
  ev = ClickJoin /\ v = true /\
  calls (step ev m) =
    [SetIsCallConnecting true; OnJoinCall (onJoinCall (props m))].
Proof.
  intros Hm Hin. destruct ev.
  - rewrite (calls_ClickJoin m Hm) in *.
    destruct (canJoin _ _); [|apply elem_of_nil in Hin; contradiction].
    apply elem_of_cons in Hin as [Hin|Hin]; [injection Hin as ->; auto|].
    apply list_elem_of_singleton in Hin. discriminate.
  - rewrite (calls_ClickCancel m Hm) in Hin.
    apply list_elem_of_singleton in Hin. discriminate.
  - rewrite (calls_ClickVideoButton m Hm) in Hin.
    apply list_elem_of_singleton in Hin. discriminate.
  - rewrite (calls_ClickAudioButton m Hm) in Hin.
    apply list_elem_of_singleton in Hin. discriminate.
  - exfalso.
    destruct (calls_KeyDown_any m event Hm) as [Hk | [q Hk]];
      rewrite Hk in Hin; [apply elem_of_nil in Hin; contradiction|].
    rewrite calls_handleKeyDown in Hin.
    destruct (shiftKey event && (key_is event "V" || key_is event "v"));
      [|destruct (shiftKey event && (key_is event "M" || key_is event "m"))];
      cbn in Hin;
      repeat (apply elem_of_cons in Hin as [Hin|Hin]; [discriminate|]);
      apply elem_of_nil in Hin; contradiction.
  - rewrite (calls_Render props0 m Hm) in Hin.
    apply (effect_call_in m _ Hm) in Hin. discriminate.
  - cbn [step] in Hin. apply (effect_call_in m _ Hm) in Hin. discriminate.
Qed.

(** Once a join has been requested, the log holds a call of the join
    intent. *)
Lemma requested_join_logged p evs :
  let m := (session p evs).1 in
  isCallConnecting m = true \/ queue m <> [] ->
  exists f, OnJoinCall f ∈ calls (session p evs).
Proof.
  apply (session_ind
    (fun m log => isCallConnecting m = true \/ queue m <> [] ->
                  exists f, OnJoinCall f ∈ log)).
  - cbn. intros [H|H]; [discriminate | contradiction].
  - intros m log ev Hm IH Hreq.
    assert (Hlog : forall f, OnJoinCall f ∈ log ->
                   exists g, OnJoinCall g ∈ log ++ calls (step ev m)).
    { intros f Hf. exists f. apply elem_of_app. left. exact Hf. }
    destruct (is_handler ev) eqn:Hev.
    + destruct (step_handler_state ev m Hm Hev) as (_ & Hc & Hq).
      rewrite Hc, Hq in Hreq.
      destruct Hreq as [Hreq|Hreq];
        [destruct (IH (or_introl Hreq)) as [f Hf]; eauto|].
      destruct (decide (queue m = [])) as [Hnil|Hnil];
        [|destruct (IH (or_intror Hnil)) as [f Hf]; eauto].
      rewrite Hnil in Hreq. cbn [app] in Hreq.
      destruct ev; try contradiction.
      exists (onJoinCall (props m)). apply elem_of_app. right.
      rewrite (calls_ClickJoin m Hm). fold (joinable m).
      destruct (joinable m); [|contradiction].
      apply elem_of_cons. right. apply list_elem_of_singleton. reflexivity.
    + destruct ev; try discriminate.
      * destruct (step_Render_state props0 m Hm) as (_ & Hc & Hq).
        rewrite Hc, Hq in Hreq. destruct Hreq as [Hreq|Hreq]; [|contradiction].
        rewrite (flushed_queue m (cons_queue m Hm)) in Hreq.
        apply orb_true_iff in Hreq as [Hreq|Hreq].
        -- destruct (IH (or_introl Hreq)) as [f Hf]. eauto.
        -- apply negb_true_iff, bool_decide_eq_false in Hreq.
           destruct (IH (or_intror Hreq)) as [f Hf]. eauto.
      * destruct (step_Flush_state m Hm) as (_ & Hc & Hq & _).
        rewrite Hc, Hq in Hreq. destruct (IH Hreq) as [f Hf]. eauto.
Qed.

Lemma connecting_stays ev m :
  consistent m -> isCallConnecting m = true ->
  isCallConnecting (step ev m).1 = true.
Proof.
  intros Hm Hc. destruct (is_handler ev) eqn:Hev.
  - destruct (step_handler_state ev m Hm Hev) as (_ & -> & _). exact Hc.
  - destruct ev; try discriminate.
    + destruct (step_Render_state props0 m Hm) as (_ & -> & _).
      rewrite (flushed_queue m (cons_queue m Hm)), Hc. reflexivity.
    + destruct (step_Flush_state m Hm) as (_ & -> & _). exact Hc.
Qed.

(** C3. The connecting flag starts false; the state setter is called only
    by a click that runs the join closure, and only with [true]; once the
    flag is up it stays up; and whenever it is up the join button of the
    committed tree is disabled and carries no click handler. *)
Theorem connecting_flag_invariant (p : PropsType) (evs : list Event) :
  let m := (session p evs).1 in
  isCallConnecting (mount p).1 = false /\
  (forall ev v,
     SetIsCallConnecting v ∈ calls (step ev m) ->
     ev = ClickJoin /\ v = true /\
     calls (step ev m) =
       [SetIsCallConnecting true; OnJoinCall (onJoinCall (props m))]) /\
  (isCallConnecting m = true ->
   exists f, OnJoinCall f ∈ calls (session p evs)) /\
  (forall ev,
     isCallConnecting m = true -> isCallConnecting (step ev m).1 = true) /\
  (isCallConnecting m = true ->
   disabled (joinButton (committed m)) = true /\
   onClick (joinButton (committed m)) = None).
Proof.
  intros m. pose proof (session_consistent p evs) as Hm. fold m in Hm.
  split; [reflexivity|].
  split; [intros ev v; apply setter_only_from_join, Hm|].
  split; [intros Hc; apply requested_join_logged; left; exact Hc|].
  split; [intros ev; apply connecting_stays, Hm|].
  intros Hc. rewrite (joinButton_committed m Hm), Hc. unfold canJoin.
  rewrite andb_false_r. split; reflexivity.
Qed.

Lemma connecting_flag_invariant_witness :
  isCallConnecting
    (session (Sample.lobby Sample.five)
             [ClickJoin; Render (Sample.lobby Sample.five)]).1 = true /\
  disabled (joinButton (committed
    (session (Sample.lobby Sample.five)
             [ClickJoin; Render (Sample.lobby Sample.five)]).1)) = true /\
  onClick (joinButton (committed
    (session (Sample.lobby Sample.five)
             [ClickJoin; Render (Sample.lobby Sample.five)]).1)) = None.
Proof.
  split; [reflexivity|].
  apply (connecting_flag_invariant (Sample.lobby Sample.five)
           [ClickJoin; Render (Sample.lobby Sample.five)]).
  reflexivity.
Defined.

(** ** Button contents *)

(** C5. The content of the join button: the "call is full" text when the
    call is full; otherwise the spinner when a join attempt is in flight;
    otherwise "join" when somebody is in the call; otherwise "start". *)
Theorem join_button_content_priority (p : PropsType) (c : bool) :
  let content := children (joinButton (output (CallingLobby p c))) in
  (isCallFull p = Some true ->
   content = RText (i18n p "calling__call-is-full" None)) /\
  (isCallFull p <> Some true -> c = true -> content = RSpinner "small") /\
  (isCallFull p <> Some true -> c = false -> peekedParticipants p <> [] ->
   content = RText (i18n p "calling__join" None)) /\
  (isCallFull p <> Some true -> c = false -> peekedParticipants p = [] ->
   content = RText (i18n p "calling__start" None)).
Proof.
  cbn. unfold joinButtonChildren.
  destruct (isCallFull p) as [[|]|]; cbn;
    (split; [try discriminate; try reflexivity|]);
    (split; [intros Hf Hc; try congruence; rewrite Hc; reflexivity|]);
    (split; intros Hf Hc Hp; try congruence; rewrite Hc).
  all: destruct (peekedParticipants p); try congruence; reflexivity.
Qed.

Lemma join_button_content_priority_witness :
  children (joinButton (output (CallingLobby (Sample.lobby Sample.five) false)))
  = RText "calling__join".
Proof.
  apply (join_button_content_priority (Sample.lobby Sample.five) false);
    [discriminate | reflexivity | discriminate].
Defined.

(** C6. The video toggle shows video-on exactly when local video is on;
    with local video off it shows video-disabled exactly when there is no
    camera, and video-off otherwise. The audio toggle shows audio-on or
    audio-off, following the local audio flag. *)
Theorem toggle_button_types (p : PropsType) (c : bool) :
  let v := buttonType (videoButton (output (CallingLobby p c))) in
  let a := buttonType (audioButton (output (CallingLobby p c))) in
  (v = VIDEO_ON <-> hasLocalVideo p = true) /\
  (hasLocalVideo p = false ->
   (v = VIDEO_DISABLED <-> length (availableCameras p) = 0)) /\
  (hasLocalVideo p = false -> length (availableCameras p) <> 0 ->
   v = VIDEO_OFF) /\
  (a = AUDIO_ON <-> hasLocalAudio p = true) /\
  (a = AUDIO_OFF <-> hasLocalAudio p = false) /\
  (a = AUDIO_ON \/ a = AUDIO_OFF).
Proof.
  cbn. unfold videoButtonType, audioButtonType.
  destruct (hasLocalVideo p), (hasLocalAudio p),
    (availableCameras p) as [|cam cams]; cbn;
    repeat split; intros; try congruence; try discriminate; auto; try lia.
Qed.

Lemma toggle_button_types_witness :
  buttonType (videoButton (output (CallingLobby (Sample.lobby []) false)))
  = VIDEO_OFF.
Proof.
  apply (toggle_button_types (Sample.lobby []) false);
    [reflexivity | discriminate].
Defined.

(** ** Defaults *)

(** C9. Leaving [isCallFull] undefined renders what [isCallFull = false]
    renders, tree and effects alike; leaving [isGroupCall] undefined
    renders what [isGroupCall = false] renders, and no summary line,
    whoever is in the call. *)
Theorem undefined_flags_default_false (p : PropsType) (c : bool) :
  (isCallFull p = None ->
   CallingLobby p c = CallingLobby (with_isCallFull (Some false) p) c) /\
  (isGroupCall p = None ->
   CallingLobby p c = CallingLobby (with_isGroupCall (Some false) p) c /\
   info (output (CallingLobby p c)) = None).
Proof.
  split.
  - intros H. unfold CallingLobby. cbn [with_isCallFull availableCameras
      conversation hasLocalAudio hasLocalVideo i18n isGroupCall isCallFull me
      onCallCanceled onJoinCall peekedParticipants setLocalAudio setLocalVideo
      setLocalPreview showParticipantsList toggleParticipants toggleSettings].
    rewrite H. reflexivity.
  - intros H. unfold CallingLobby. cbn [with_isGroupCall availableCameras
      conversation hasLocalAudio hasLocalVideo i18n isGroupCall isCallFull me
      onCallCanceled onJoinCall peekedParticipants setLocalAudio setLocalVideo
      setLocalPreview showParticipantsList toggleParticipants toggleSettings].
    rewrite H. split; reflexivity.
Qed.

Lemma undefined_flags_default_false_witness :
  CallingLobby (Sample.lobby Sample.five) false =
  CallingLobby (with_isCallFull (Some false) (Sample.lobby Sample.five)) false
  /\
  info (output (CallingLobby
                  (with_isGroupCall None (Sample.lobby Sample.five)) true))
  = None.
Proof.
  split.
  - exact (proj1 (undefined_flags_default_false
                    (Sample.lobby Sample.five) false) eq_refl).
  - exact (proj2 (proj2 (undefined_flags_default_false
             (with_isGroupCall None (Sample.lobby Sample.five)) true) eq_refl)).
Defined.

(** ** Keyboard shortcuts *)

Lemma calls_listenerOf q event :
  calls (handleKeyDown (listenerOf q) event) =
  if shiftKey event && (key_is event "V" || key_is event "v") then
    [SetLocalVideo (setLocalVideo q) (negb (hasLocalVideo q));
     PreventDefault; StopPropagation]
  else if shiftKey event && (key_is event "M" || key_is event "m") then
    [SetLocalAudio (setLocalAudio q) (negb (hasLocalAudio q));
     PreventDefault; StopPropagation]
  else [].
Proof. rewrite calls_handleKeyDown. reflexivity. Qed.





(** ** Preview registration and keydown listener *)

Lemma calls_unmount m :
  consistent m ->
  calls (unmount m) =
  calls (flushEffects m) ++
  [SetLocalPreview (setLocalPreview (props m)) None;
   RemoveEventListener "keydown" (listenerOf (props m))].
Proof.
  intros Hm. unfold unmount. rewrite calls_bind, calls_exec.
  destruct (flushEffects_spec m Hm) as (_ & _ & _ & _ & _ & -> & -> & _).
  reflexivity.
Qed.

Lemma document_unmount m : consistent m -> document (unmount m).1 = [].
Proof.
  intros Hm. unfold unmount. rewrite value_bind.
  destruct (flushEffects_spec m Hm)
    as (_ & _ & _ & _ & _ & Hrp & Hrk & _ & _ & Hd).
  revert Hrp Hrk Hd. generalize (flushEffects m).1. intros m1 -> -> Hd.
  cbn -[removeEventListener listenerOf]. rewrite Hd.
  apply removeEventListener_single.
Qed.

Lemma effects_pending_Render p' m :
  consistent m ->
  effects_pending (step (Render p') m).1 =
  negb (bool_decide (setLocalPreview p' = setLocalPreview (props m))) ||
  negb (bool_decide (listenerOf p' = listenerOf (props m))).
Proof.
  intros Hm. cbn [step].
  destruct (rerender_spec p' m Hm) as (Hm1 & Hp & _ & _ & Hrp & Hrk & _).
  unfold effects_pending.
  rewrite (cons_pendingPreview _ Hm1), (cons_pendingKeydown _ Hm1).
  rewrite Hrp, Hrk, Hp, previewEffect_eq, keydownEffect_eq.
  rewrite schedule_preview, schedule_keydown.
  destruct (bool_decide (setLocalPreview p' = _));
    destruct (bool_decide (listenerOf p' = _)); reflexivity.
Qed.

Lemma filter_filter_disjoint {A} (f g : A -> bool) (l : list A) :
  (forall a, f a = true -> g a = false) ->
  List.filter g (List.filter f l) = [].
Proof.
  intros Hfg. induction l as [|a l IH]; [reflexivity|].
  cbn [List.filter]. destruct (f a) eqn:Hf; [|exact IH].
  cbn [List.filter]. rewrite (Hfg a Hf). exact IH.
Qed.

(** A handler makes no call of the kind the effects make. *)
Lemma handler_no_effect_calls ev m :
  consistent m -> is_handler ev = true ->
  List.filter is_effect_call (calls (step ev m)) = [].
Proof.
  intros Hm Hev. destruct ev; try discriminate.
  - rewrite (calls_ClickJoin m Hm). destruct (canJoin _ _); reflexivity.
  - rewrite (calls_ClickCancel m Hm). reflexivity.
  - rewrite (calls_ClickVideoButton m Hm). reflexivity.
  - rewrite (calls_ClickAudioButton m Hm). reflexivity.
  - destruct (calls_KeyDown_any m event Hm) as [-> | [q ->]]; [reflexivity|].
    rewrite calls_listenerOf.
    destruct (shiftKey event && _); [reflexivity|].
    destruct (shiftKey event && _); reflexivity.
Qed.

(** Along events that keep the dependencies of both effects, the effects
    of the mount run once, when React first runs scheduled effects, and
    nothing else is ever scheduled. *)
Lemma effects_run_once p evs :
  forallb (keeps_deps p) evs = true ->
  let m := (session p evs).1 in
  let log := List.filter is_effect_call (calls (session p evs)) in
  setLocalPreview (props m) = setLocalPreview p /\
  listenerOf (props m) = listenerOf p /\
  ((ranPreview m = None /\ log = []) \/
   (effects_pending m = false /\
    log = [SetLocalPreview (setLocalPreview p) (Some localVideoRef);
           AddEventListener "keydown" (listenerOf p)])).
Proof.
  apply (session_ind_where (keeps_deps p) (fun m log =>
    setLocalPreview (props m) = setLocalPreview p /\
    listenerOf (props m) = listenerOf p /\
    ((ranPreview m = None /\ List.filter is_effect_call log = []) \/
     (effects_pending m = false /\
      List.filter is_effect_call log =
        [SetLocalPreview (setLocalPreview p) (Some localVideoRef);
         AddEventListener "keydown" (listenerOf p)])))).
  - repeat split. left. split; reflexivity.
  - intros m log ev Hev Hm (Hf & Hl & Hphase).
    rewrite List.filter_app.
    assert (Hflush :
      (effects_pending (flushEffects m).1 = false) /\
      List.filter is_effect_call log ++
      List.filter is_effect_call (calls (flushEffects m)) =
        [SetLocalPreview (setLocalPreview p) (Some localVideoRef);
         AddEventListener "keydown" (listenerOf p)]).
    { split; [apply (step_Flush_state m Hm)|].
      rewrite (flushEffects_effect_calls m Hm).
      destruct Hphase as [[Hnone ->] | [Hpend ->]].
      - rewrite (calls_flushEffects_first m Hm Hnone), Hf, Hl. reflexivity.
      - destruct (settled m Hm Hpend) as (_ & _ & _ & ->). reflexivity. }
    destruct (is_handler ev) eqn:Hh.
    + destruct (step_handler_state ev m Hm Hh) as (-> & _ & _).
      destruct (step_handler_effects ev m Hh) as (-> & _ & ->).
      rewrite (handler_no_effect_calls ev m Hm Hh), app_nil_r. auto.
    + destruct ev; try discriminate.
      * cbn [keeps_deps] in Hev. apply andb_true_iff in Hev as [Hev1 Hev2].
        apply bool_decide_eq_true in Hev1. apply bool_decide_eq_true in Hev2.
        destruct (step_Render_state props0 m Hm) as (-> & _ & _).
        rewrite (effects_pending_Render props0 m Hm), Hf, Hl.
        rewrite !bool_decide_eq_true_2 by assumption.
        rewrite (calls_Render props0 m Hm).
        split; [exact Hev1|]. split; [exact Hev2|]. right.
        split; [reflexivity | apply Hflush].
      * destruct (step_Flush_state m Hm) as (-> & _).
        split; [exact Hf|]. split; [exact Hl|]. right. exact Hflush.
Qed.

(** C8. Mounting and then unmounting registers the preview target once
    (a defined target), then clears it once (an undefined target), and
    adds the keydown listener once and removes that same listener once,
    leaving none behind. The same four calls, and no other effect call,
    are made when events that keep the dependencies of both effects come
    in between. A render with a different [setLocalPreview] clears the
    target through the previous function before registering it with the
    new one. *)
Theorem preview_and_listener_lifecycle (p : PropsType) :
  let f := setLocalPreview p in
  let l := listenerOf p in
  calls (m ← mount p; unmount m) =
    [SetLocalPreview f (Some localVideoRef); AddEventListener "keydown" l;
     SetLocalPreview f None; RemoveEventListener "keydown" l] /\
  document (step FlushEffects (mount p).1).1 = [("keydown", l)] /\
  document (m ← mount p; unmount m).1 = [] /\
  (forall evs,
     forallb (keeps_deps p) evs = true ->
     List.filter is_effect_call (calls (m ← session p evs; unmount m)) =
       [SetLocalPreview f (Some localVideoRef); AddEventListener "keydown" l;
        SetLocalPreview f None; RemoveEventListener "keydown" l]) /\
  (forall evs p',
     let m := (session p evs).1 in
     setLocalPreview p' <> setLocalPreview (props m) ->
     List.filter is_preview_call
       (calls (step FlushEffects (step (Render p') m).1)) =
       [SetLocalPreview (setLocalPreview (props m)) None;
        SetLocalPreview (setLocalPreview p') (Some localVideoRef)]).
Proof.
  intros f l.
  split; [reflexivity|]. split; [reflexivity|].
  split; [rewrite value_bind; apply document_unmount, mount_consistent|].
  split.
  - intros evs Hevs.
    pose proof (session_consistent p evs) as Hm.
    destruct (effects_run_once p evs Hevs) as (Hf & Hl & Hphase).
    rewrite calls_bind, List.filter_app, (calls_unmount _ Hm).
    rewrite List.filter_app, (flushEffects_effect_calls _ Hm), Hf, Hl.
    destruct Hphase as [[Hnone ->] | [Hpend ->]].
    + rewrite (calls_flushEffects_first _ Hm Hnone), Hf, Hl. reflexivity.
    + destruct (settled _ Hm Hpend) as (_ & _ & _ & ->). reflexivity.
  - intros evs p' m Hne.
    rewrite (calls_effects_of_Render p' m (session_consistent p evs)).
    cbn zeta. rewrite (bool_decide_eq_false_2 _ Hne).
    destruct (bool_decide (listenerOf p' = listenerOf (props m))); reflexivity.
Qed.

Lemma preview_and_listener_lifecycle_witness :
  List.filter is_effect_call
    (calls (m ← session (Sample.lobby Sample.five)
                  [KeyDown Sample.shiftV; ClickJoin;
                   Render (Sample.lobby [Sample.bob])];
            unmount m)) =
  [SetLocalPreview 5 (Some localVideoRef);
   AddEventListener "keydown" (listenerOf (Sample.lobby Sample.five));
   SetLocalPreview 5 None;
   RemoveEventListener "keydown" (listenerOf (Sample.lobby Sample.five))].
Proof.
  apply (preview_and_listener_lifecycle (Sample.lobby Sample.five)).
  reflexivity.
Defined.

(** ** Joining once *)

Lemma joins_app log1 log2 : joins (log1 ++ log2) = joins log1 + joins log2.
Proof. unfold joins. rewrite List.filter_app, length_app. reflexivity. Qed.

Lemma count_app kind log1 log2 :
  count kind (log1 ++ log2) = count kind log1 + count kind log2.
Proof. unfold count. rewrite List.filter_app, length_app. reflexivity. Qed.

(** Running scheduled effects calls neither the join intent nor the state
    setter. *)
Lemma flushEffects_no_join m :
  consistent m ->
  joins (calls (flushEffects m)) = 0 /\
  count is_setter (calls (flushEffects m)) = 0.
Proof.
  intros Hm. unfold joins, count.
  rewrite <- (flushEffects_effect_calls m Hm).
  rewrite !filter_filter_disjoint; [split; reflexivity | |];
    intros a Ha; destruct a; try reflexivity; discriminate.
Qed.

(** The calls of one event, classified. *)
Lemma step_calls_kinds ev m :
  consistent m ->
  let log := calls (step ev m) in
  count is_setter log = joins log /\
  joins log <= (if is_click_join ev then 1 else 0) /\
  (isCallConnecting m = true -> joins log = 0).
Proof.
  intros Hm. cbn zeta. destruct ev.
  - rewrite (calls_ClickJoin m Hm). unfold canJoin.
    destruct (default false (isCallFull (props m))), (isCallConnecting m);
      cbn; repeat split; auto; discriminate.
  - rewrite (calls_ClickCancel m Hm). cbn. repeat split; auto.
  - rewrite (calls_ClickVideoButton m Hm). cbn. repeat split; auto.
  - rewrite (calls_ClickAudioButton m Hm). cbn. repeat split; auto.
  - destruct (calls_KeyDown_any m event Hm) as [-> | [q ->]];
      [cbn; repeat split; auto|].
    rewrite calls_listenerOf.
    destruct (shiftKey event && _);
      [|destruct (shiftKey event && _)]; cbn; repeat split; auto.
  - rewrite (calls_Render props0 m Hm).
    destruct (flushEffects_no_join m Hm) as [-> ->]. cbn. repeat split; auto.
  - cbn [step].
    destruct (flushEffects_no_join m Hm) as [-> ->]. cbn. repeat split; auto.
Qed.

(** A join stays requested. *)
Lemma requested_step ev m :
  consistent m ->
  requested (step ev m).1 =
  requested m ||
  match ev with ClickJoin => joinable m | _ => false end.
Proof.
  intros Hm. unfold requested. destruct (is_handler ev) eqn:Hev.
  - destruct (step_handler_state ev m Hm Hev) as (_ & -> & ->).
    destruct ev; try discriminate; rewrite ?app_nil_r, ?orb_false_r;
      try reflexivity.
    destruct (joinable m); [|rewrite app_nil_r, orb_false_r; reflexivity].
    rewrite (bool_decide_eq_false_2 (queue m ++ [true] = []))
      by (destruct (queue m); discriminate).
    cbn. rewrite !orb_true_r. reflexivity.
  - destruct ev; try discriminate.
    + destruct (step_Render_state props0 m Hm) as (_ & -> & ->).
      rewrite (flushed_queue m (cons_queue m Hm)).
      rewrite (bool_decide_eq_true_2 (@nil bool = [])) by reflexivity.
      cbn. rewrite !orb_false_r. reflexivity.
    + destruct (step_Flush_state m Hm) as (_ & -> & -> & _).
      rewrite orb_false_r. reflexivity.
Qed.

(** While a join is queued, the join button of the committed tree is the
    enabled one the click landed on. *)
Lemma queued_joinable_step ev m :
  consistent m ->
  (join_queued m = true -> joinable m = true) ->
  join_queued (step ev m).1 = true -> joinable (step ev m).1 = true.
Proof.
  intros Hm Hinv. unfold join_queued, joinable in *.
  destruct (is_handler ev) eqn:Hev.
  - destruct (step_handler_state ev m Hm Hev) as (-> & -> & ->).
    destruct ev; try discriminate; rewrite ?app_nil_r; try exact Hinv.
    fold (joinable m). destruct (joinable m) eqn:Hj; [reflexivity|].
    rewrite app_nil_r. intros H. rewrite <- Hj. apply Hinv, H.
  - destruct ev; try discriminate.
    destruct (step_Flush_state m Hm) as (-> & -> & -> & _). exact Hinv.
Qed.

(** One event, counted: the join intent is called when the event turns an
    instance without a requested join into one with it, and by every click
    that arrives while a join is queued. *)
Lemma joins_step ev m :
  consistent m ->
  (join_queued m = true -> joinable m = true) ->
  joins (calls (step ev m)) + (if requested m then 1 else 0) =
  (if requested (step ev m).1 then 1 else 0) +
  (if is_click_join ev && join_queued m then 1 else 0).
Proof.
  intros Hm Hinv. rewrite (requested_step ev m Hm).
  destruct (step_calls_kinds ev m Hm) as (_ & Hle & _). cbn zeta in Hle.
  destruct ev; cbn [is_click_join andb] in *;
    try (rewrite orb_false_r; destruct (requested m); lia).
  clear Hle. rewrite (calls_ClickJoin m Hm). fold (joinable m).
  unfold requested, join_queued in *.
  destruct (bool_decide (queue m = [])) eqn:Hq; cbn [negb] in *.
  - rewrite orb_false_r. unfold joinable, canJoin.
    destruct (default false (isCallFull (props m))), (isCallConnecting m);
      reflexivity.
  - rewrite (Hinv eq_refl), !orb_true_r. reflexivity.
Qed.

Lemma joins_run_events evs : forall m,
  consistent m ->
  (join_queued m = true -> joinable m = true) ->
  joins (calls (run_events evs m)) + (if requested m then 1 else 0) =
  (if requested (run_events evs m).1 then 1 else 0) +
  clicks_before_rerender evs m.
Proof.
  induction evs as [|ev evs IH]; intros m Hm Hinv; [cbn; lia|].
  cbn [run_events clicks_before_rerender].
  rewrite value_bind, calls_bind, joins_app.
  pose proof (joins_step ev m Hm Hinv) as Hstep.
  specialize (IH (step ev m).1 (step_consistent ev m Hm)
                 (queued_joinable_step ev m Hm Hinv)).
  lia.
Qed.

Lemma requested_run_events evs : forall m,
  consistent m -> requested m = true ->
  requested (run_events evs m).1 = true.
Proof.
  induction evs as [|ev evs IH]; intros m Hm Hreq; [exact Hreq|].
  cbn [run_events]. rewrite value_bind.
  apply IH; [apply step_consistent, Hm|].
  rewrite (requested_step ev m Hm), Hreq. reflexivity.
Qed.

Lemma connecting_run_events evs : forall m,
  consistent m -> isCallConnecting m = true ->
  joins (calls (run_events evs m)) = 0 /\
  count is_setter (calls (run_events evs m)) = 0 /\
  isCallConnecting (run_events evs m).1 = true.
Proof.
  induction evs as [|ev evs IH]; intros m Hm Hc; [auto|].
  cbn [run_events]. rewrite value_bind, !calls_bind, joins_app, count_app.
  destruct (step_calls_kinds ev m Hm) as (Hs & _ & Hj).
  rewrite Hs, (Hj Hc).
  destruct (IH _ (step_consistent ev m Hm) (connecting_stays ev m Hm Hc))
    as (-> & -> & ->).
  auto.
Qed.

(** After a requested join, the first render raises the flag, for good. *)
Lemma connecting_after_render evs : forall m,
  consistent m -> requested m = true ->
  existsb is_render evs = true ->
  isCallConnecting (run_events evs m).1 = true.
Proof.
  induction evs as [|ev evs IH]; intros m Hm Hreq Hex; [discriminate|].
  cbn [run_events]. rewrite value_bind.
  pose proof (step_consistent ev m Hm) as Hm'.
  destruct (is_render ev) eqn:Hr.
  - destruct ev; try discriminate.
    apply connecting_run_events; [exact Hm'|].
    destruct (step_Render_state props0 m Hm) as (_ & -> & _).
    rewrite (flushed_queue m (cons_queue m Hm)). exact Hreq.
  - cbn [existsb] in Hex. rewrite Hr in Hex. cbn in Hex.
    apply IH; [exact Hm' | | exact Hex].
    rewrite (requested_step ev m Hm), Hreq. reflexivity.
Qed.

(** The log of two clicks on the join button of one committed tree. *)
Lemma two_clicks_before_rerender :
  joinable (mount (Sample.lobby Sample.five)).1 = true /\
  calls (run_events [ClickJoin; ClickJoin]
                    (mount (Sample.lobby Sample.five)).1) =
    [SetIsCallConnecting true; OnJoinCall 2;
     SetIsCallConnecting true; OnJoinCall 2] /\
  joins (calls (session (Sample.lobby Sample.five) [ClickJoin; ClickJoin]))
    = 2.
Proof. repeat split. Qed.

(** C2, amended. A click on the join button while it is enabled calls the
    state setter with [true] and then the join intent, once each, and the
    connecting flag is up from the next render on, whenever that render
    comes. Over the whole life of the instance the join intent is called
    once, plus once for every further click on the join button that
    arrives after a click that ran the join closure and before the next
    render: exactly once when there is no such click. *)
Theorem join_once_when_rerendered (p : PropsType)
    (before after : list Event) :
  let m := (session p before).1 in
  let evs := before ++ ClickJoin :: after in
  disabled (joinButton (committed m)) = false ->
  calls (step ClickJoin m) =
    [SetIsCallConnecting true; OnJoinCall (onJoinCall (props m))] /\
  (forall later,
     existsb is_render later = true ->
     isCallConnecting (run_events (ClickJoin :: later) m).1 = true) /\
  joins (calls (session p evs)) = 1 + clicks_before_rerender evs (mount p).1 /\
  (clicks_before_rerender evs (mount p).1 = 0 <->
   joins (calls (session p evs)) = 1).
Proof.
  intros m evs Hen.
  pose proof (session_consistent p before) as Hm. fold m in Hm.
  assert (Hjoin : joinable m = true).
  { rewrite (joinButton_committed m Hm) in Hen. cbn [disabled] in Hen.
    apply negb_false_iff in Hen. exact Hen. }
  pose proof (calls_ClickJoin m Hm) as Hcalls. fold (joinable m) in Hcalls.
  rewrite Hjoin in Hcalls.
  pose proof (step_consistent ClickJoin m Hm) as Hm1.
  assert (Hreq1 : requested (step ClickJoin m).1 = true).
  { rewrite (requested_step ClickJoin m Hm), Hjoin. apply orb_true_r. }
  split; [exact Hcalls|]. split.
  { intros later Hex. cbn [run_events]. rewrite value_bind.
    apply connecting_after_render; assumption. }
  assert (Htotal :
    joins (calls (session p evs)) = 1 + clicks_before_rerender evs (mount p).1).
  { pose proof (joins_run_events evs (mount p).1 (mount_consistent p)
                  (fun H => False_ind _ (diff_false_true H))) as Hcount.
    change (requested (mount p).1) with false in Hcount.
    assert (Hfinal : requested (run_events evs (mount p).1).1 = true).
    { unfold evs. rewrite run_events_app, value_bind.
      cbn [run_events]. rewrite value_bind.
      apply requested_run_events; [apply step_consistent|];
        replace (run_events before (mount p).1).1 with m
          by (unfold m, session; rewrite value_bind; reflexivity);
        assumption. }
    rewrite Hfinal in Hcount.
    unfold session at 1. rewrite calls_bind, joins_app.
    change (joins (calls (mount p))) with 0. lia. }
  split; [exact Htotal|]. rewrite Htotal. lia.
Qed.

Lemma join_once_when_rerendered_witness :
  joins (calls (session (Sample.lobby Sample.five)
                  ([KeyDown Sample.shiftV] ++
                   ClickJoin ::
                   [Render (Sample.lobby Sample.five); ClickJoin; ClickJoin;
                    Render (Sample.lobby [Sample.bob]); ClickJoin]))) = 1.
Proof.
  exact (proj1 (proj2 (proj2
    (join_once_when_rerendered (Sample.lobby Sample.five)
       [KeyDown Sample.shiftV]
       [Render (Sample.lobby Sample.five); ClickJoin; ClickJoin;
        Render (Sample.lobby [Sample.bob]); ClickJoin]
       eq_refl)))).
Defined.

(** * Further properties of the component *)

(** ** Toggles and cancel *)

(** An event that leaves the instance as it is can be repeated: each
    repetition makes the same calls. *)
Lemma run_events_repeat ev m log n :
  step ev m = (m, log) ->
  run_events (repeat ev n) m = (m, concat (repeat log n)).
Proof.
  intros Hstep. induction n as [|n IH]; [reflexivity|].
  cbn [repeat run_events concat]. unfold mbind, Eff_bind.
  rewrite Hstep. cbn [fst snd]. rewrite IH. reflexivity.
Qed.

Lemma concat_repeat_singleton {A} (a : A) n :
  concat (repeat [a] n) = repeat a n.
Proof. induction n as [|n IH]; [reflexivity|]. cbn. rewrite IH. reflexivity. Qed.

Lemma step_inert ev m a :
  is_handler ev = true ->
  calls (step ev m) = [a] ->
  perform m a = m ->
  step ev m = (m, [a]).
Proof.
  intros Hev Hcalls Hperform.
  rewrite (surjective_pairing (step ev m)).
  rewrite (step_value ev m Hev).
  change (step ev m).2 with (calls (step ev m)). rewrite Hcalls.
  cbn [foldl]. rewrite Hperform. reflexivity.
Qed.

(** X1. The handlers given to the video and audio buttons are driven by
    the props alone: run any number of times on one committed tree, each
    run calls the setter once with the inverse of the flag of the last
    render (the same value every time), and the instance is unchanged. *)
Theorem toggles_follow_props (p : PropsType) (evs : list Event) (n : nat) :
  let m := (session p evs).1 in
  run_events (repeat ClickVideoButton n) m =
    (m, repeat (SetLocalVideo (setLocalVideo (props m))
                              (negb (hasLocalVideo (props m)))) n) /\
  run_events (repeat ClickAudioButton n) m =
    (m, repeat (SetLocalAudio (setLocalAudio (props m))
                              (negb (hasLocalAudio (props m)))) n).
Proof.
  intros m. pose proof (session_consistent p evs) as Hm. fold m in Hm.
  split.
  - erewrite run_events_repeat;
      [rewrite concat_repeat_singleton; reflexivity|].
    apply step_inert;
      [reflexivity | apply (calls_ClickVideoButton m Hm) | reflexivity].
  - erewrite run_events_repeat;
      [rewrite concat_repeat_singleton; reflexivity|].
    apply step_inert;
      [reflexivity | apply (calls_ClickAudioButton m Hm) | reflexivity].
Qed.

(** X2. The cancel button is enabled in every state of the instance, also
    while the call is full or a join is in flight; each click on it calls
    the cancel intent once and leaves the instance, its connecting flag
    included, unchanged. *)
Theorem cancel_always_available (p : PropsType) (evs : list Event) (n : nat) :
  let m := (session p evs).1 in
  disabled (cancelButton (committed m)) = false /\
  onClick (cancelButton (committed m)) =
    Some (Prop_onCallCanceled (onCallCanceled (props m))) /\
  run_events (repeat ClickCancel n) m =
    (m, repeat (OnCallCanceled (onCallCanceled (props m))) n).
Proof.
  intros m. pose proof (session_consistent p evs) as Hm. fold m in Hm.
  rewrite (cons_committed m Hm).
  split; [reflexivity|]. split; [reflexivity|].
  erewrite run_events_repeat;
    [rewrite concat_repeat_singleton; reflexivity|].
  apply step_inert;
    [reflexivity | apply (calls_ClickCancel m Hm) | reflexivity].
Qed.

(** X3. Once the effects of the last render have run, a recognised
    shortcut does what the button does: shift with V or v makes the call of
    the video button's handler, shift with M or m that of the audio
    button's handler, each followed by [preventDefault] and
    [stopPropagation]. *)
Theorem shortcut_matches_button (p : PropsType) (evs : list Event)
    (event : KeyboardEvent) :
  let m := (session p evs).1 in
  effects_pending m = false ->
  shiftKey event = true ->
  (key event = "V" \/ key event = "v" ->
   calls (step (KeyDown event) m) =
   calls (step ClickVideoButton m) ++ [PreventDefault; StopPropagation]) /\
  (key event = "M" \/ key event = "m" ->
   calls (step (KeyDown event) m) =
   calls (step ClickAudioButton m) ++ [PreventDefault; StopPropagation]).
Proof.
  intros m Hpend Hshift.
  pose proof (session_consistent p evs) as Hm. fold m in Hm.
  rewrite (calls_KeyDown m event Hm Hpend), calls_handleKeyDown.
  rewrite (calls_ClickVideoButton m Hm), (calls_ClickAudioButton m Hm).
  unfold key_is. rewrite Hshift.
  split; intros [Hk|Hk]; rewrite Hk; reflexivity.
Qed.

Lemma shortcut_matches_button_witness :
  calls (step (KeyDown Sample.shiftV)
              (session (Sample.lobby Sample.five)
                       [ClickJoin; FlushEffects]).1) =
  calls (step ClickVideoButton
              (session (Sample.lobby Sample.five)
                       [ClickJoin; FlushEffects]).1)
  ++ [PreventDefault; StopPropagation].
Proof.
  apply (shortcut_matches_button (Sample.lobby Sample.five)
           [ClickJoin; FlushEffects] Sample.shiftV eq_refl eq_refl).
  left. reflexivity.
Defined.

(** ** Video area and header *)

(** X4. The live preview element is rendered exactly when local video is
    on and a camera exists; in every other case the placeholder is
    rendered with the local user's avatar and colour and the "video is
    off" caption. The preview implies the video-on button, but not the
    other way round: with local video on and no camera the button shows
    video-on over the placeholder. *)
Theorem video_area_rule (p : PropsType) (c : bool) :
  let v := video (output (CallingLobby p c)) in
  let button := buttonType (videoButton (output (CallingLobby p c))) in
  let placeholder :=
    CallBackgroundBlur (avatarPath (me p)) (color (me p))
      (i18n p "calling__your-video-is-off" None) in
  (v = Video localVideoRef <->
   hasLocalVideo p = true /\ availableCameras p <> []) /\
  (v = placeholder <->
   hasLocalVideo p = false \/ availableCameras p = []) /\
  (v = Video localVideoRef -> button = VIDEO_ON) /\
  (hasLocalVideo p = true -> availableCameras p = [] ->
   button = VIDEO_ON /\ v = placeholder).
Proof.
  cbn. unfold videoButtonType.
  destruct (hasLocalVideo p), (availableCameras p) as [|cam cams]; cbn;
    repeat split; intros; try discriminate; try congruence; auto;
    try (destruct H; congruence).
Qed.

Lemma video_area_rule_witness :
  buttonType (videoButton (output (CallingLobby
     {| availableCameras := []; conversation := {| conv_title := "x" |};
        hasLocalAudio := false; hasLocalVideo := true; i18n := Sample.spell;
        isGroupCall := None; isCallFull := None;
        me := {| avatarPath := Some "me.png"; color := None;
                 me_uuid := "uuid-me" |};
        onCallCanceled := 1; onJoinCall := 2; peekedParticipants := [];
        setLocalAudio := 3; setLocalVideo := 4; setLocalPreview := 5;
        showParticipantsList := false; toggleParticipants := 6;
        toggleSettings := 7 |} false))) = VIDEO_ON /\
  video (output (CallingLobby
     {| availableCameras := []; conversation := {| conv_title := "x" |};
        hasLocalAudio := false; hasLocalVideo := true; i18n := Sample.spell;
        isGroupCall := None; isCallFull := None;
        me := {| avatarPath := Some "me.png"; color := None;
                 me_uuid := "uuid-me" |};
        onCallCanceled := 1; onJoinCall := 2; peekedParticipants := [];
        setLocalAudio := 3; setLocalVideo := 4; setLocalPreview := 5;
        showParticipantsList := false; toggleParticipants := 6;
        toggleSettings := 7 |} false)) =
  CallBackgroundBlur (Some "me.png") None "calling__your-video-is-off".
Proof.
  apply (video_area_rule
     {| availableCameras := []; conversation := {| conv_title := "x" |};
        hasLocalAudio := false; hasLocalVideo := true; i18n := Sample.spell;
        isGroupCall := None; isCallFull := None;
        me := {| avatarPath := Some "me.png"; color := None;
                 me_uuid := "uuid-me" |};
        onCallCanceled := 1; onJoinCall := 2; peekedParticipants := [];
        setLocalAudio := 3; setLocalVideo := 4; setLocalPreview := 5;
        showParticipantsList := false; toggleParticipants := 6;
        toggleSettings := 7 |} false); reflexivity.
Defined.

(** X5. The header is told the number of peeked participants, which is
    the number of names the summary is built from, self and repeated
    entries included; it is told a group call exactly when the summary
    line is rendered; and the enabled join button reads "join" when that
    number is not zero and "start" when it is. *)
Theorem header_agrees_with_body (p : PropsType) (c : bool) :
  let r := output (CallingLobby p c) in
  ch_participantCount (header r) =
    length (participantNames (i18n p) (me p) (peekedParticipants p)) /\
  (ch_isGroupCall (header r) = true <-> info r <> None) /\
  (ch_isGroupCall (header r) = true <-> isGroupCall p = Some true) /\
  (disabled (joinButton r) = false ->
   children (joinButton r) =
     RText (i18n p (if ch_participantCount (header r) =? 0
                    then "calling__start" else "calling__join") None)).
Proof.
  cbn. rewrite participantNames_length. split; [reflexivity|].
  split; [|split].
  - destruct (isGroupCall p) as [[|]|]; cbn; split; congruence.
  - destruct (isGroupCall p) as [[|]|]; cbn; split; congruence.
  - unfold canJoin, joinButtonChildren.
    destruct (default false (isCallFull p)), c; cbn; try discriminate.
    intros _. destruct (length (peekedParticipants p)); reflexivity.
Qed.

Lemma header_agrees_with_body_witness :
  children (joinButton (output (CallingLobby (Sample.lobby []) false))) =
  RText "calling__start".
Proof.
  apply (header_agrees_with_body (Sample.lobby []) false). reflexivity.
Defined.

(** ** A join and the render that follows it *)



(** ** When effects re-run *)

Lemma listenerOf_eq p p' :
  listenerOf p' = listenerOf p <->
  hasLocalVideo p' = hasLocalVideo p /\ setLocalVideo p' = setLocalVideo p /\
  hasLocalAudio p' = hasLocalAudio p /\ setLocalAudio p' = setLocalAudio p.
Proof.
  unfold listenerOf, toggleVideo, toggleAudio. split.
  - intros H. injection H as -> -> -> ->. auto.
  - intros (-> & -> & -> & ->). reflexivity.
Qed.

(** X7. A render re-runs an effect exactly when one of its dependencies
    changed; the calls are made when React runs the effects the render
    scheduled. With the same [setLocalPreview] and the same two flags and
    setters nothing is called; a changed flag or setter swaps the keydown
    listener (the old one removed, the one of the new props added); a
    changed [setLocalPreview] clears the target through the old function
    and registers it through the new one; cleanups come before runs. *)
Theorem render_reruns_effects_on_deps (p : PropsType) (evs : list Event)
    (p' : PropsType) :
  let m := (session p evs).1 in
  let log := calls (step FlushEffects (step (Render p') m).1) in
  let same_preview := setLocalPreview p' = setLocalPreview (props m) in
  let same_toggles :=
    hasLocalVideo p' = hasLocalVideo (props m) /\
    setLocalVideo p' = setLocalVideo (props m) /\
    hasLocalAudio p' = hasLocalAudio (props m) /\
    setLocalAudio p' = setLocalAudio (props m) in
  (log = [] <-> same_preview /\ same_toggles) /\
  (same_preview -> ~ same_toggles ->
   log = [RemoveEventListener "keydown" (listenerOf (props m));
          AddEventListener "keydown" (listenerOf p')]) /\
  (~ same_preview -> same_toggles ->
   log = [SetLocalPreview (setLocalPreview (props m)) None;
          SetLocalPreview (setLocalPreview p') (Some localVideoRef)]) /\
  (~ same_preview -> ~ same_toggles ->
   log = [SetLocalPreview (setLocalPreview (props m)) None;
          RemoveEventListener "keydown" (listenerOf (props m));
          SetLocalPreview (setLocalPreview p') (Some localVideoRef);
          AddEventListener "keydown" (listenerOf p')]).
Proof.
  intros m log same_preview same_toggles.
  pose proof (session_consistent p evs) as Hm. fold m in Hm.
  assert (Hlog : log = calls (step FlushEffects (step (Render p') m).1))
    by reflexivity.
  rewrite (calls_effects_of_Render p' m Hm) in Hlog. cbn zeta in Hlog.
  assert (Ht : same_toggles <-> listenerOf p' = listenerOf (props m))
    by (symmetry; apply listenerOf_eq).
  clearbody log m. subst same_preview. rewrite Ht. clear Ht.
  destruct (decide (setLocalPreview p' = setLocalPreview (props m)))
    as [Ep|Ep];
    destruct (decide (listenerOf p' = listenerOf (props m))) as [El|El];
    rewrite ?(bool_decide_eq_true_2 _ Ep), ?(bool_decide_eq_false_2 _ Ep),
      ?(bool_decide_eq_true_2 _ El), ?(bool_decide_eq_false_2 _ El) in Hlog;
    cbn in Hlog; subst log;
    repeat split; intros; try discriminate; try tauto.
Qed.

Lemma render_reruns_effects_on_deps_witness :
  calls (step FlushEffects
           (step (Render (Sample.lobby [Sample.bob]))
                 (session (Sample.lobby Sample.five) [ClickJoin]).1).1) = [].
Proof.
  apply (render_reruns_effects_on_deps (Sample.lobby Sample.five) [ClickJoin]
           (Sample.lobby [Sample.bob])).
  repeat split.
Defined.

(** X8. The document never holds more than one keydown listener of the
    component: none until the effects of the mount have run, and from then
    on exactly one; once the effects of the last render have run it is the
    one closed over the flags and setters of that render. After the
    unmount it holds none, and a keydown calls nothing. *)
Theorem one_listener_while_mounted (p : PropsType) (evs : list Event)
    (event : KeyboardEvent) :
  let m := (session p evs).1 in
  length (document m) <= 1 /\
  (document m = [] <-> effects_ran m = false) /\
  (effects_pending m = false ->
   document m = [("keydown", listenerOf (props m))]) /\
  document (step FlushEffects m).1 = [("keydown", listenerOf (props m))] /\
  document (unmount m).1 = [] /\
  calls (dispatchKeyDown (document (unmount m).1) event) = [].
Proof.
  intros m. pose proof (session_consistent p evs) as Hm. fold m in Hm.
  split; [|split; [|split; [|split]]].
  - destruct (cons_ran m Hm) as [(_ & _ & ->) | (f0 & q0 & _ & _ & ->)];
      cbn; lia.
  - unfold effects_ran.
    destruct (cons_ran m Hm) as [(-> & _ & ->) | (f0 & q0 & -> & _ & ->)];
      split; auto; discriminate.
  - intros Hpend. apply (settled m Hm Hpend).
  - cbn [step]. apply (flushEffects_spec m Hm).
  - rewrite (document_unmount m Hm). split; reflexivity.
Qed.

Lemma one_listener_while_mounted_witness :
  document (session (Sample.lobby Sample.five)
              [Render (Sample.lobby_video_on Sample.five); FlushEffects]).1 =
  [("keydown", listenerOf (Sample.lobby_video_on Sample.five))].
Proof.
  exact (proj1 (proj2 (proj2
    (one_listener_while_mounted (Sample.lobby Sample.five)
       [Render (Sample.lobby_video_on Sample.five); FlushEffects]
       Sample.shiftV))) eq_refl).
Defined.

(** ** Bookkeeping over the whole life of an instance *)

(** X9. No [setLocalPreview] call is made before the effects of the mount
    have run. Once the effects of the last render have run, the most
    recent call registered the video ref through the function that render
    received; after the unmount the most recent call cleared the target,
    through the function the last render received. *)
Theorem preview_target_current (p : PropsType) (evs : list Event) :
  let m := (session p evs).1 in
  (last_preview_call (calls (session p evs)) = None <->
   effects_ran m = false) /\
  (effects_pending m = false ->
   last_preview_call (calls (session p evs)) =
     Some (SetLocalPreview (setLocalPreview (props m))
                           (Some localVideoRef))) /\
  last_preview_call (calls (m' ← session p evs; unmount m')) =
    Some (SetLocalPreview (setLocalPreview (props m)) None).
Proof.
  cbn zeta.
  assert (Hlast :
    match ranPreview (session p evs).1 with
    | None => last_preview_call (calls (session p evs)) = None
    | Some e => last_preview_call (calls (session p evs)) =
                Some (SetLocalPreview (deps e) (Some localVideoRef))
    end).
  { apply (session_ind (fun m log =>
      match ranPreview m with
      | None => last_preview_call log = None
      | Some e => last_preview_call log =
                  Some (SetLocalPreview (deps e) (Some localVideoRef))
      end)).
    - reflexivity.
    - intros m log ev Hm IH. unfold last_preview_call in *.
      rewrite List.filter_app, last_app.
      assert (Hflush :
        match last (List.filter is_preview_call (calls (flushEffects m))) with
        | Some y => Some y
        | None => last (List.filter is_preview_call log)
        end = Some (SetLocalPreview (setLocalPreview (props m))
                                    (Some localVideoRef))).
      { destruct (cons_ran m Hm)
          as [(Hrp & _) | (f0 & q0 & Hrp & Hrk & _)].
        - rewrite (calls_flushEffects_first m Hm Hrp). reflexivity.
        - rewrite Hrp in IH. cbn [deps previewEffectOf] in IH.
          rewrite (calls_flushEffects_later m f0 _ Hm Hrp Hrk). cbn zeta.
          destruct (decide (setLocalPreview (props m) = f0)) as [Ef|Ef];
            rewrite ?(bool_decide_eq_true_2 _ Ef),
              ?(bool_decide_eq_false_2 _ Ef);
            destruct (negb (bool_decide (listenerOf (props m) = _)));
            cbn; rewrite ?IH, ?Ef; reflexivity. }
      destruct (is_handler ev) eqn:Hev.
      + destruct (step_handler_effects ev m Hev) as (_ & _ & ->).
        pose proof (handler_no_effect_calls ev m Hm Hev) as Hnone.
        assert (Hp : List.filter is_preview_call (calls (step ev m)) = []).
        { rewrite <- (filter_filter_disjoint is_effect_call
                       (fun a => negb (is_effect_call a)) []) at 1
            by (intros a ->; reflexivity).
          clear -Hnone. induction (calls (step ev m)) as [|a l IHl];
            [reflexivity|].
          cbn [List.filter] in *. destruct a; cbn in *;
            try discriminate; auto. }
        rewrite Hp. cbn. exact IH.
      + destruct ev; try discriminate.
        * rewrite (calls_Render props0 m Hm).
          cbn [step].
          destruct (rerender_spec props0 m Hm) as (_ & _ & _ & _ & -> & _).
          exact Hflush.
        * cbn [step].
          destruct (flushEffects_spec m Hm)
            as (_ & _ & _ & _ & _ & -> & _).
          exact Hflush. }
  pose proof (session_consistent p evs) as Hm.
  split; [|split].
  - unfold effects_ran.
    destruct (ranPreview (session p evs).1); rewrite Hlast;
      split; auto; discriminate.
  - intros Hpend. destruct (settled _ Hm Hpend) as (Hrp & _).
    rewrite Hrp in Hlast. exact Hlast.
  - unfold last_preview_call.
    rewrite calls_bind, List.filter_app, last_app, (calls_unmount _ Hm).
    rewrite List.filter_app, last_app. reflexivity.
Qed.

Lemma preview_target_current_witness :
  last_preview_call
    (calls (session (Sample.lobby Sample.five) [ClickJoin; FlushEffects])) =
  Some (SetLocalPreview 5 (Some localVideoRef)).
Proof.
  exact (proj1 (proj2 (preview_target_current (Sample.lobby Sample.five)
                         [ClickJoin; FlushEffects])) eq_refl).
Defined.

(** X10. Over a whole life, from the mount to the unmount, whatever the
    events in between, every registration of the preview target is matched
    by a clearing and every added keydown listener by a removal: the four
    counts agree pairwise. While mounted, nothing is registered or added
    until the effects of the mount have run, and from then on there is one
    more registration than clearings and one more addition than
    removals. *)
Theorem registrations_balanced (p : PropsType) (evs : list Event) :
  let m := (session p evs).1 in
  let mounted := calls (session p evs) in
  let whole := calls (m ← session p evs; unmount m) in
  let ran := if effects_ran m then 1 else 0 in
  count is_register mounted = ran + count is_deregister mounted /\
  count is_add mounted = ran + count is_remove mounted /\
  (effects_pending m = false -> ran = 1) /\
  count is_register whole = count is_deregister whole /\
  count is_add whole = count is_remove whole.
Proof.
  cbn zeta.
  assert (Hflush : forall m, consistent m ->
    (if effects_ran m then 1 else 0) +
      count is_register (calls (flushEffects m)) =
      1 + count is_deregister (calls (flushEffects m)) /\
    (if effects_ran m then 1 else 0) +
      count is_add (calls (flushEffects m)) =
      1 + count is_remove (calls (flushEffects m))).
  { intros m Hm. unfold effects_ran.
    destruct (cons_ran m Hm) as [(Hrp & _) | (f0 & q0 & Hrp & Hrk & _)].
    - rewrite (calls_flushEffects_first m Hm Hrp), Hrp. split; reflexivity.
    - rewrite (calls_flushEffects_later m f0 _ Hm Hrp Hrk), Hrp. cbn zeta.
      destruct (negb (bool_decide (setLocalPreview (props m) = f0)));
        destruct (negb (bool_decide (listenerOf (props m) = _)));
        split; reflexivity. }
  assert (H :
    count is_register (calls (session p evs)) =
      (if effects_ran (session p evs).1 then 1 else 0) +
      count is_deregister (calls (session p evs)) /\
    count is_add (calls (session p evs)) =
      (if effects_ran (session p evs).1 then 1 else 0) +
      count is_remove (calls (session p evs))).
  { apply (session_ind (fun m log =>
      count is_register log =
        (if effects_ran m then 1 else 0) + count is_deregister log /\
      count is_add log =
        (if effects_ran m then 1 else 0) + count is_remove log)).
    - split; reflexivity.
    - intros m log ev Hm [IH1 IH2]. rewrite !count_app, IH1, IH2.
      destruct (Hflush m Hm) as [Hf1 Hf2].
      destruct (is_handler ev) eqn:Hev.
      + assert (Hran : effects_ran (step ev m).1 = effects_ran m).
        { unfold effects_ran.
          destruct (step_handler_effects ev m Hev) as (_ & _ & ->).
          reflexivity. }
        rewrite Hran.
        pose proof (handler_no_effect_calls ev m Hm Hev) as Hnone.
        assert (Hz : forall kind,
          (forall a, kind a = true -> is_effect_call a = true) ->
          count kind (calls (step ev m)) = 0).
        { intros kind Hsub. unfold count. clear -Hnone Hsub.
          induction (calls (step ev m)) as [|a l IHl]; [reflexivity|].
          cbn [List.filter] in *.
          destruct (is_effect_call a) eqn:Ha; [discriminate|].
          destruct (kind a) eqn:Hk;
            [rewrite (Hsub a Hk) in Ha; discriminate | auto]. }
        rewrite !Hz by (intros a; destruct a as [| | ? [|] | | | | | | |];
                        cbn; congruence).
        split; lia.
      + assert (Hran : effects_ran (step ev m).1 = true).
        { unfold effects_ran. destruct ev; try discriminate; cbn [step].
          - destruct (rerender_spec props0 m Hm) as (_ & _ & _ & _ & -> & _).
            reflexivity.
          - destruct (flushEffects_spec m Hm)
              as (_ & _ & _ & _ & _ & -> & _).
            reflexivity. }
        assert (Hcalls : calls (step ev m) = calls (flushEffects m)).
        { destruct ev; try discriminate;
            [apply (calls_Render _ m Hm) | reflexivity]. }
        rewrite Hran, Hcalls. split; lia. }
  pose proof (session_consistent p evs) as Hm.
  destruct H as [H1 H2]. split; [exact H1|]. split; [exact H2|].
  split.
  { intros Hpend. unfold effects_ran.
    destruct (settled _ Hm Hpend) as (-> & _). reflexivity. }
  rewrite calls_bind, !count_app, H1, H2, (calls_unmount _ Hm), !count_app.
  destruct (Hflush _ Hm) as [Hf1 Hf2].
  change (count is_register [SetLocalPreview _ None; _]) with 0.
  change (count is_deregister [SetLocalPreview _ None; _]) with 1.
  change (count is_add [SetLocalPreview _ None; _]) with 0.
  change (count is_remove [SetLocalPreview _ None; _]) with 1.
  split; lia.
Qed.

Lemma registrations_balanced_witness :
  count is_register
    (calls (session (Sample.lobby Sample.five)
              [FlushEffects;
               Render (Sample.lobby_video_on Sample.five); FlushEffects])) =
  1 + count is_deregister
    (calls (session (Sample.lobby Sample.five)
              [FlushEffects;
               Render (Sample.lobby_video_on Sample.five); FlushEffects])).
Proof.
  exact (proj1 (registrations_balanced (Sample.lobby Sample.five)
                  [FlushEffects;
                   Render (Sample.lobby_video_on Sample.five);
                   FlushEffects])).
Defined.

(** ** The join intent over a life *)

(** X11. Once a render has seen the connecting flag up, nothing calls the
    join intent or the state setter again for the rest of the instance's
    life: no click, however many and however timed, and no change of
    props, a call that stops being full included. *)
Theorem no_join_after_connecting (p : PropsType)
    (before after : list Event) :
  let m := (session p before).1 in
  isCallConnecting m = true ->
  joins (calls (run_events after m)) = 0 /\
  count is_setter (calls (run_events after m)) = 0 /\
  isCallConnecting (run_events after m).1 = true.
Proof.
  intros m Hc. apply connecting_run_events; [|exact Hc].
  apply session_consistent.
Qed.

Lemma no_join_after_connecting_witness :
  joins (calls (run_events
    [ClickJoin; ClickJoin;
     Render (with_isCallFull (Some true) (Sample.lobby Sample.five));
     ClickJoin; Render (Sample.lobby []); ClickJoin; ClickJoin]
    (session (Sample.lobby Sample.five)
             [ClickJoin; Render (Sample.lobby Sample.five)]).1)) = 0.
Proof.
  apply (no_join_after_connecting (Sample.lobby Sample.five)
           [ClickJoin; Render (Sample.lobby Sample.five)]).
  reflexivity.
Defined.

Lemma joins_bounded_by_clicks evs : forall m,
  consistent m ->
  joins (calls (run_events evs m)) <= length (List.filter is_click_join evs).
Proof.
  induction evs as [|ev evs IH]; intros m Hm; [cbn; lia|].
  cbn [run_events]. rewrite calls_bind, joins_app.
  destruct (step_calls_kinds ev m Hm) as (_ & Hle & _).
  specialize (IH _ (step_consistent ev m Hm)).
  cbn [List.filter]. destruct (is_click_join ev); cbn [length]; lia.
Qed.

(** X12. In the log of any life of an instance the join intent is called
    as often as the state setter, the two always together, and never more
    often than the join button was clicked; without a click on the join
    button it is never called. *)
Theorem join_calls_accounted (p : PropsType) (evs : list Event) :
  let log := calls (session p evs) in
  count is_setter log = joins log /\
  joins log <= length (List.filter is_click_join evs) /\
  (forall v, SetIsCallConnecting v ∈ log -> v = true).
Proof.
  cbn zeta. split; [|split].
  - apply (session_ind (fun _ log => count is_setter log = joins log)).
    + reflexivity.
    + intros m log ev Hm IH. rewrite count_app, joins_app, IH.
      destruct (step_calls_kinds ev m Hm) as (-> & _). reflexivity.
  - unfold session. rewrite calls_bind, joins_app.
    change (joins (calls (mount p))) with 0.
    apply (joins_bounded_by_clicks evs _ (mount_consistent p)).
  - apply (session_ind (fun _ log =>
      forall v, SetIsCallConnecting v ∈ log -> v = true)).
    + intros v Hv. cbn in Hv. apply elem_of_nil in Hv. contradiction.
    + intros m log ev Hm IH v Hv. apply elem_of_app in Hv as [Hv|Hv].
      * apply IH, Hv.
      * apply (setter_only_from_join ev m v Hm Hv).
Qed.

(** ** The local user among the peeked participants *)

(** X13. Entries are named one by one and never merged: when the local
    user is peeked twice (a quick rejoin, or another device) and those are
    the first two of two or more entries, the summary names "you" as both
    the first and the second participant, and the count of the others
    still counts every entry. *)
Theorem self_peeked_twice (p : PropsType) (c : bool)
    (a b : ConversationType) (others : list ConversationType) :
  isGroupCall p = Some true ->
  peekedParticipants p = a :: b :: others ->
  uuid a = Some (me_uuid (me p)) ->
  uuid b = Some (me_uuid (me p)) ->
  let you := i18n p "you" None in
  option_map rendered (info (output (CallingLobby p c))) =
  Some
    match others with
    | [] =>
        [RText (i18n p "calling__lobby-summary--double"
                  (Some (ValuesObject [("first", Some you);
                                       ("second", Some you)])))]
    | [d] =>
        [RText (i18n p "calling__lobby-summary--triple"
                  (Some (ValuesObject
                     [("first", Some you); ("second", Some you);
                      ("third", Some (participantName (i18n p) (me p) d))])))]
    | _ =>
        [RText (i18n p "calling__lobby-summary--many"
                  (Some (ValuesObject
                     [("first", Some you); ("second", Some you);
                      ("others",
                       Some (JS.String (Z.of_nat (length others))))])))]
    end.
Proof.
  intros Hgroup Hpeeked Ha Hb you. unfold CallingLobby.
  rewrite Hgroup, Hpeeked. cbn [default info output option_map].
  unfold lobbySummary. rewrite participantNames_length.
  assert (Hname : forall x, uuid x = Some (me_uuid (me p)) ->
                  participantName (i18n p) (me p) x = you).
  { intros x Hx. unfold participantName, JS.strict_eq. rewrite Hx.
    rewrite bool_decide_eq_true_2 by reflexivity. reflexivity. }
  destruct others as [|d [|e rest]].
  - cbn. rewrite (Hname a Ha), (Hname b Hb). reflexivity.
  - cbn. rewrite (Hname a Ha), (Hname b Hb). reflexivity.
  - cbn [length participantNames map lookup list_lookup Nat.eqb Nat.ltb
         Nat.leb andb when rendered List.filter visible].
    rewrite (Hname a Ha), (Hname b Hb).
    replace (Z.of_nat (S (S (S (S (length rest))))) - 2)%Z
      with (Z.of_nat (S (S (length rest)))) by lia.
    reflexivity.
Qed.

Lemma self_peeked_twice_witness :
  option_map rendered
    (info (output (CallingLobby
       (Sample.lobby [Sample.self; Sample.self; Sample.bob; Sample.carol])
       false))) =
  Some [RText "calling__lobby-summary--many{first=you,second=you,others=2}"].
Proof.
  exact (self_peeked_twice
           (Sample.lobby [Sample.self; Sample.self; Sample.bob; Sample.carol])
           false Sample.self Sample.self [Sample.bob; Sample.carol]
           eq_refl eq_refl eq_refl eq_refl).
Defined.
